(** * AI Meeting Summarizer: the job pipeline of [server.py] and its stages

    A shallow embedding of the FastAPI server (job registry, submission and
    status endpoints, background executor, reaper), of [transcribe_audio]
    and [check_audio_file], of the extractive summarizer and of the sentence
    search, then of the suffix and the validation of an upload, of the
    header check, of the context of a search result and of the sentiment
    report, followed by the properties proved about them.

    Conventions.
    - Python [str] holding free text (transcripts, summaries, queries) is a
      list of Unicode code points, [pystr]; identifiers, status lines and
      error texts are [string].
    - [time.time()] and every other float are exact rationals ([Q]).
    - What the operating system and the third party libraries answer
      (file system, FFmpeg, AssemblyAI, NLTK, scikit-learn, pydantic,
      python-magic, librosa) is an input of the functions that ask for
      it. *)

From Stdlib Require Import Ascii ZArith QArith Lia.
From Stdlib.Strings Require Import Byte.
From stdpp Require Import gmap strings list fin_maps pretty sorting.

Local Open Scope string_scope.
Local Set Warnings "-register-all,-clear-no-such-hyp".

(** ** Python values and exceptions *)

Module Py.

(** Free text: a sequence of code points. *)
Abbreviation pystr := (list N).

(** An ASCII literal as a [pystr]. *)
Fixpoint lit (s : string) : pystr :=
  match s with
  | EmptyString => []
  | String a s' => N_of_ascii a :: lit s'
  end.

Definition bullet : N := 8226.   (* U+2022 *)
Definition space : N := 32.
Definition newline : N := 10.
Definition full_stop : N := 46.

(** A value that is either [None] or a [str]. *)
Inductive pyobj :=
| PyNone
| PyStr (s : pystr).

(** The values [check_audio_file] stores in its report. *)
Inductive pyval :=
| VNone
| VBool (b : bool)
| VInt (n : Z)
| VStr (s : string)
| VList (l : list string).

(** Truth value testing, [if v:]. *)
Definition truthy (v : pyval) : bool :=
  match v with
  | VNone => false
  | VBool b => b
  | VInt n => negb (n =? 0)%Z
  | VStr s => negb (String.eqb s "")
  | VList l => negb (bool_decide (l = []))
  end.

Definition truthy_str (s : option string) : bool :=
  match s with
  | None => false
  | Some s => negb (String.eqb s "")
  end.

(** The exceptions met in the modelled code. *)
Inductive pyexn :=
| KeyError (key : string)
| ValueError (msg : string)
| FileNotFoundError (msg : string)
| TypeError (msg : string)
| IndexError (msg : string)
| LookupError (msg : string)
| ZeroDivisionError
| Exception_ (msg : string)
| HTTPException (status_code : Z) (detail : string).

(** [str(e)].  A [KeyError] prints the [repr] of its key. *)
Definition str_exn (e : pyexn) : string :=
  match e with
  | KeyError k => "'" ++ k ++ "'"
  | ValueError m | FileNotFoundError m | TypeError m
  | IndexError m | LookupError m | Exception_ m => m
  | ZeroDivisionError => "integer division or modulo by zero"
  | HTTPException c d => pretty c ++ ": " ++ d
  end.

(** An HTTP error of the 4xx class. *)
Definition client_error (e : pyexn) : Prop :=
  match e with
  | HTTPException c _ => (400 <= c < 500)%Z
  | _ => False
  end.

(** [d[key]] and [d.get(key)] on a dict with string keys. *)
Definition getitem (d : gmap string pyval) (key : string) : pyexn + pyval :=
  match d !! key with
  | Some v => inr v
  | None => inl (KeyError key)
  end.

Definition dict_get (d : gmap string pyval) (key : string) : pyval :=
  default VNone (d !! key).

Definition dict_get_default (d : gmap string pyval) (key : string) (dflt : pyval) : pyval :=
  default dflt (d !! key).

End Py.
Export Py.

(** ** The job registry ([server.py]) *)

Module Registry.

(** The report of [analyze_sentiment], kept as the items of its dict. *)
Definition sentiment := list (string * pyval).

(** [{"transcript": ..., "summary": ..., "sentiment": ...}] *)
Record job_results := JobResults {
  transcript : pyobj;
  summary : pystr;
  sentiment_report : sentiment
}.

(** One entry of [job_status], as [process_audio] creates it
    (server.py:272-280). *)
Record job := Job {
  progress : Z;
  message : string;
  created_at : Q;
  updated_at : Q;
  complete : bool;
  error : option string;
  results : option job_results
}.

Definition set_progress (p : Z) (m : string) (t : Q) (j : job) : job :=
  {| progress := p; message := m; created_at := created_at j; updated_at := t;
     complete := complete j; error := error j; results := results j |}.

Definition set_complete (b : bool) (j : job) : job :=
  {| progress := progress j; message := message j; created_at := created_at j;
     updated_at := updated_at j; complete := b; error := error j;
     results := results j |}.

Definition set_results (r : job_results) (j : job) : job :=
  {| progress := progress j; message := message j; created_at := created_at j;
     updated_at := updated_at j; complete := complete j; error := error j;
     results := Some r |}.

Definition set_error (e : string) (j : job) : job :=
  {| progress := progress j; message := message j; created_at := created_at j;
     updated_at := updated_at j; complete := complete j; error := Some e;
     results := results j |}.

(** [job_status: Dict[str, Dict[str, Any]]] (server.py:34) *)
Abbreviation registry := (gmap string job).

(** The record written at submission (server.py:272-280). *)
Definition new_job (t : Q) : job :=
  {| progress := 0; message := "Job started"; created_at := t; updated_at := t;
     complete := false; error := None; results := None |}.

(** *** Status endpoint (server.py:288-314) *)

(** The three bodies the endpoint returns. *)
Inductive snapshot :=
| ErrorSnapshot (message : string) (error : string)
| CompleteSnapshot (results : option job_results)
| ProcessingSnapshot (progress : Z) (message : string).

(** The value under ["status"] and the keys of the returned dict. *)
Definition status_of (s : snapshot) : string :=
  match s with
  | ErrorSnapshot _ _ => "error"
  | CompleteSnapshot _ => "complete"
  | ProcessingSnapshot _ _ => "processing"
  end.

Definition keys_of (s : snapshot) : list string :=
  match s with
  | ErrorSnapshot _ _ => ["status"; "message"; "error"]
  | CompleteSnapshot _ => ["status"; "results"]
  | ProcessingSnapshot _ _ => ["status"; "progress"; "message"]
  end.

Definition get_job_status (job_status : registry) (job_id : string)
  : pyexn + snapshot :=
  match job_status !! job_id with
  | None => inl (HTTPException 404 "Job not found")
  | Some status =>
      if truthy_str (error status) then
        inr (ErrorSnapshot (message status) (default "" (error status)))
      else if complete status then
        inr (CompleteSnapshot (results status))
      else
        inr (ProcessingSnapshot (progress status) (message status))
  end.

(** The state a record stands for: the error text comes first, then the
    completion flag, as [process_audio_task] sets them. *)
Inductive job_state := RUNNING | COMPLETE | ERROR.

Definition state_of (j : job) : job_state :=
  match error j with
  | Some (String _ _) => ERROR
  | _ => if complete j then COMPLETE else RUNNING
  end.

(** *** Reaper (server.py:327-341) *)

Definition expired (current_time : Q) (status : job) : bool :=
  negb (Qle_bool (current_time - created_at status) 86400).

(** The first loop: the ids of the records older than 24 hours. *)
Definition keys_to_remove (current_time : Q) (job_status : registry) : list string :=
  (filter (λ kv, expired current_time kv.2 = true) (map_to_list job_status)).*1.

(** The second loop: [del job_status[job_id]] for each of them. *)
Definition delete_all (keys : list string) (job_status : registry) : registry :=
  foldl (λ m k, delete k m) job_status keys.

(** One tick of [cleanup_old_jobs]: the registry left and the count logged. *)
Definition sweep (current_time : Q) (job_status : registry) : registry * nat :=
  let keys := keys_to_remove current_time job_status in
  (delete_all keys job_status, length keys).

End Registry.
Export Registry.

(** ** Python text operations *)

Module Text.

(** The code points [str.strip()] and [str.split()] treat as white space. *)
Definition is_space (c : N) : bool :=
  ((9 <=? c) && (c <=? 13) || (28 <=? c) && (c <=? 32) || (c =? 133) || (c =? 160)
   || (c =? 5760) || (8192 <=? c) && (c <=? 8202) || (c =? 8232) || (c =? 8233)
   || (c =? 8239) || (c =? 8287) || (c =? 12288))%N.

Fixpoint lstrip (s : pystr) : pystr :=
  match s with
  | c :: s' => if is_space c then lstrip s' else s
  | [] => []
  end.

Definition strip (s : pystr) : pystr := reverse (lstrip (reverse (lstrip s))).

(** [sep.join(parts)] *)
Fixpoint join (sep : pystr) (parts : list pystr) : pystr :=
  match parts with
  | [] => []
  | [p] => p
  | p :: rest => p ++ sep ++ join sep rest
  end.

Definition starts_with (p s : pystr) : bool := bool_decide (take (length p) s = p).

(** [s.replace(old, new)] for a non-empty [old]: the occurrences are found
    from the left and do not overlap; [skip] counts the code points of a
    match still to be dropped. *)
Fixpoint replace_from (old new : pystr) (skip : nat) (s : pystr) : pystr :=
  match s with
  | [] => []
  | c :: s' =>
      match skip with
      | S k => replace_from old new k s'
      | O =>
          if starts_with old s
          then new ++ replace_from old new (length old - 1) s'
          else c :: replace_from old new 0 s'
      end
  end.

Definition replace (old new s : pystr) : pystr := replace_from old new 0 s.

(** [s.split(sep)] for a non-empty [sep]; [cur] is the piece being read,
    reversed. *)
Fixpoint split_from (sep : pystr) (skip : nat) (cur : pystr) (s : pystr) : list pystr :=
  match s with
  | [] => [reverse cur]
  | c :: s' =>
      match skip with
      | S k => split_from sep k cur s'
      | O =>
          if starts_with sep s
          then reverse cur :: split_from sep (length sep - 1) [] s'
          else split_from sep 0 (c :: cur) s'
      end
  end.

Definition split (sep s : pystr) : list pystr := split_from sep 0 [] s.

(** [s.split()]: the maximal runs free of white space. *)
Fixpoint split_ws_from (cur : pystr) (s : pystr) : list pystr :=
  match s with
  | [] => if bool_decide (cur = []) then [] else [reverse cur]
  | c :: s' =>
      if is_space c
      then (if bool_decide (cur = []) then [] else [reverse cur]) ++ split_ws_from [] s'
      else split_ws_from (c :: cur) s'
  end.

Definition split_ws (s : pystr) : list pystr := split_ws_from [] s.

(** [l[:n]] *)
Definition slice_to {A} (n : Z) (l : list A) : list A :=
  if (n <? 0)%Z then take (length l - Z.to_nat (- n)) l else take (Z.to_nat n) l.

(** [l[start:]] *)
Definition slice_from {A} (start : Z) (l : list A) : list A :=
  if (start <? 0)%Z then drop (length l - Z.to_nat (- start)) l else drop (Z.to_nat start) l.

(** [range(start, stop, step)] for a positive [step]. *)
Definition range (start stop step : Z) : list Z :=
  (λ i : nat, start + Z.of_nat i * step)%Z <$> seq 0 (Z.to_nat ((stop - start + step - 1) / step)).

(** [l[i]] for [0 <= i]. *)
Definition item {A} (l : list A) (i : Z) : pyexn + A :=
  match (if (i <? 0)%Z then None else l !! Z.to_nat i) with
  | Some x => inr x
  | None => inl (IndexError "list index out of range")
  end.

(** [a // b] and [a % b] *)
Definition floordiv (a b : Z) : pyexn + Z :=
  if (b =? 0)%Z then inl ZeroDivisionError else inr (a / b)%Z.

Definition pymod (a b : Z) : pyexn + Z :=
  if (b =? 0)%Z then inl ZeroDivisionError else inr (a mod b)%Z.

(** Number of bullet characters in a text. *)
Definition bullets (s : pystr) : nat := length (filter (λ c, c = bullet) s).

End Text.
Export Text.

(** ** Results that may be an exception *)

Module Result.

Definition R (A : Type) : Type := (pyexn + A)%type.

Definition ok {A} (a : A) : R A := inr a.
Definition throw {A} (e : pyexn) : R A := inl e.

Definition and_then {A B} (m : R A) (f : A → R B) : R B :=
  match m with
  | inr a => f a
  | inl e => inl e
  end.

(** [try: m  except Exception: h] *)
Definition or_else {A} (m : R A) (h : A) : A :=
  match m with
  | inr a => a
  | inl _ => h
  end.

Declare Scope result_scope.
Delimit Scope result_scope with result.
Notation "'let?' x := m 'in' k" := (and_then m (λ x, k))
  (at level 10, x name, m at level 100, k at level 200) : result_scope.

Local Open Scope result_scope.

(** [[f(x) for x in l]] *)
Fixpoint for_each {A B} (f : A → R B) (l : list A) : R (list B) :=
  match l with
  | [] => ok []
  | x :: l' => let? y := f x in let? ys := for_each f l' in ok (y :: ys)
  end.

(** [[x for x in l if f(x)]] *)
Fixpoint keep_if {A} (f : A → R bool) (l : list A) : R (list A) :=
  match l with
  | [] => ok []
  | x :: l' =>
      let? b := f x in
      let? ys := keep_if f l' in
      ok (if b then x :: ys else ys)
  end.

End Result.
Export Result.
Local Open Scope result_scope.

(** ** The summarizer ([summarization.py]) *)

Module Summarization.

(** What NLTK and the Unicode tables answer. *)
Record Nltk := {
  sent_tokenize : pystr → R (list pystr);
  word_tokenize : pystr → R (list pystr);
  stopwords_words : R (list pystr);          (* [stopwords.words('english')] *)
  lower : pystr → pystr;                     (* [str.lower] *)
  isalnum : pystr → bool                     (* [str.isalnum] *)
}.

(** summarization.py:71-86 *)
Definition fallback_stop_words : list pystr :=
  lit <$> ["i"; "me"; "my"; "myself"; "we"; "our"; "ours"; "ourselves";
    "you"; "your"; "yours"; "yourself"; "yourselves"; "he"; "him";
    "his"; "himself"; "she"; "her"; "hers"; "herself"; "it"; "its";
    "itself"; "they"; "them"; "their"; "theirs"; "themselves"; "what";
    "which"; "who"; "whom"; "this"; "that"; "these"; "those"; "am";
    "is"; "are"; "was"; "were"; "be"; "been"; "being"; "have"; "has";
    "had"; "having"; "do"; "does"; "did"; "doing"; "a"; "an"; "the";
    "and"; "but"; "if"; "or"; "because"; "as"; "until"; "while"; "of";
    "at"; "by"; "for"; "with"; "about"; "against"; "between"; "into";
    "through"; "during"; "before"; "after"; "above"; "below"; "to";
    "from"; "up"; "down"; "in"; "out"; "on"; "off"; "over"; "under";
    "again"; "further"; "then"; "once"; "here"; "there"; "when";
    "where"; "why"; "how"; "all"; "any"; "both"; "each"; "few";
    "more"; "most"; "other"; "some"; "such"; "no"; "nor"; "not";
    "only"; "own"; "same"; "so"; "than"; "too"; "very"; "s"; "t";
    "can"; "will"; "just"; "don"; "should"; "now"].

(** The bullet and the blank every point starts with. *)
Definition marker : pystr := [bullet; space].

(** ["• " + "\n• ".join(sentences)] *)
Definition render (sentences : list pystr) : pystr :=
  marker ++ join (newline :: marker) sentences.

(** [heapq.nlargest(n, scores, key=scores.get)]: the [n] best keys, the
    earlier one first among equals. *)
Fixpoint insert_desc (x : nat * Q) (l : list (nat * Q)) : list (nat * Q) :=
  match l with
  | [] => [x]
  | y :: l' => if Qle_bool y.2 x.2 then x :: l else y :: insert_desc x l'
  end.

Definition nlargest (n : Z) (scores : list (nat * Q)) : list nat :=
  if (n <=? 0)%Z then [] else take (Z.to_nat n) (foldr insert_desc [] scores).*1.

Section WithNltk.
Context (nltk : Nltk).

(** The words of a sentence (lines 93-96 and 119-122). *)
Definition words_of (sentence : pystr) : list pystr :=
  or_else (word_tokenize nltk (lower nltk sentence)) (split_ws (lower nltk sentence)).

(** Lines 98-100, for one sentence. *)
Definition count_words (stop_words : list pystr) (word_frequencies : gmap pystr Z)
    (sentence : pystr) : gmap pystr Z :=
  foldl (λ wf word,
           if negb (bool_decide (word ∈ stop_words)) && isalnum nltk word
           then <[word := (default 0 (wf !! word) + 1)%Z]> wf
           else wf)
        word_frequencies (words_of sentence).

(** Lines 124-126, for one sentence: [None] when no word of it is counted. *)
Definition sentence_score (word_frequencies : gmap pystr Q) (sentence : pystr) : option Q :=
  foldl (λ acc word,
           match word_frequencies !! word with
           | Some f => Some (default 0 acc + f)%Q
           | None => acc
           end)
        None (words_of sentence).

(** The [try] block, lines 59-146. *)
Definition summarize_main (transcript : pystr) (num_sentences : Z) : R pystr :=
  let? sentences := sent_tokenize nltk transcript in
  let len := Z.of_nat (length sentences) in
  if (len <=? num_sentences)%Z then ok (render sentences) else
  let stop_words := or_else (stopwords_words nltk) fallback_stop_words in
  let word_frequencies := foldl (count_words stop_words) ∅ sentences in
  if bool_decide (word_frequencies = ∅) then
    let? q := floordiv len num_sentences in
    let step := Z.max 1 q in
    let selected_indices := slice_to num_sentences (range 0 len step) in
    let? summary_sentences := for_each (item sentences) selected_indices in
    ok (render summary_sentences)
  else
  let max_frequency := foldr Z.max 0%Z (map_to_list word_frequencies).*2 in
  let word_frequencies :=
    (λ c : Z, inject_Z c / inject_Z max_frequency)%Q <$> word_frequencies in
  let sentence_scores :=
    omap (λ '(i, sentence), (λ s, (i, s)) <$> sentence_score word_frequencies sentence)
         (imap (λ i sentence, (i, sentence)) sentences) in
  if bool_decide (sentence_scores = []) then
    let? rest :=
      (if (1 <? len)%Z then
         let? l := keep_if (λ i, let? q := floordiv len (num_sentences - 1) in
                                 let? r := pymod i (q + 1) in
                                 ok (r =? 0)%Z)
                           (range 1 len 1) in
         ok (slice_to (num_sentences - 1) l)
       else ok []) in
    let selected_indices := 0%Z :: rest in
    let? summary_sentences := for_each (item sentences) selected_indices in
    ok (render summary_sentences)
  else
  let top_sentence_indices := merge_sort Nat.le (nlargest num_sentences sentence_scores) in
  let? summary_sentences :=
    for_each (λ i : nat, item sentences (Z.of_nat i)) top_sentence_indices in
  ok (render summary_sentences).

(** The first handler, lines 150-167. *)
Definition summarize_fallback (transcript : pystr) (num_sentences : Z) : R pystr :=
  let sentences := split [full_stop; space] transcript in
  let len := Z.of_nat (length sentences) in
  if (len <=? 3)%Z then ok (render sentences) else
  let? first := item sentences 0 in
  let? q := floordiv len (num_sentences - 1) in
  let step := Z.max 1 q in
  let middle :=
    omap (λ i, let idx := (i * step)%Z in
               if (idx <? len)%Z then sentences !! Z.to_nat idx else None)
         (range 1 (num_sentences - 1) 1) in
  let tail := if (1 <? len)%Z then option_list (last sentences) else [] in
  ok (render (first :: middle ++ tail)).

(** The last handler, lines 169-173. *)
Definition summarize_ultra (transcript : pystr) : pystr :=
  if (500 <? length transcript)%nat
  then marker ++ take 500 transcript ++ lit "..."
  else marker ++ transcript.

Definition summarize_text (transcript : pyobj) (num_sentences : Z) : pystr :=
  match transcript with
  | PyNone => marker ++ lit "Invalid transcript format"
  | PyStr transcript =>
      let transcript := strip transcript in
      if bool_decide (transcript = []) then
        marker ++ lit "No transcript content to summarize"
      else
        or_else (summarize_main transcript num_sentences)
          (or_else (summarize_fallback transcript num_sentences)
             (summarize_ultra transcript))
  end.

End WithNltk.

(** The style applied by the executor (server.py:142-146). *)
Definition to_paragraph (summary : pystr) : pystr :=
  replace [newline] [space] (replace marker [] summary).

(** The summary the executor stores (server.py:136-146). *)
Definition styled_summary (nltk : Nltk) (num_summary_points : Z) (summary_style : string)
    (transcript : pyobj) : pystr :=
  let summary := summarize_text nltk transcript num_summary_points in
  if String.eqb summary_style "Paragraph" then to_paragraph summary else summary.

(** A text without the bullet character, and a transcript that has none
    and is cut by NLTK into sentences that have none. *)
Definition bullet_free (s : pystr) : Prop := bullet ∉ s.

(** [s] is the rendering of at most [k] points, all taken from [pool]. *)
Definition renders (pool : list pystr) (k : nat) (s : pystr) : Prop :=
  ∃ l, s = render l ∧ (length l ≤ k)%nat ∧ l ⊆ pool.

Definition plain (nltk : Nltk) (transcript : pyobj) : Prop :=
  match transcript with
  | PyNone => True
  | PyStr t =>
      bullet_free t ∧
      ∀ sentences, sent_tokenize nltk (strip t) = inr sentences →
                   Forall bullet_free sentences
  end.

End Summarization.
Export Summarization.

(** ** The sentence search ([search.py]) *)

Module SentenceSearch.

Abbreviation vector := (list Q).

(** A fitted [TfidfVectorizer]: what [transform([query]).toarray()] gives. *)
Record fitted_vectorizer := { transform : pystr → R vector }.

(** What scikit-learn and NLTK answer to the index. *)
Record Sklearn := {
  fit_transform : list pystr → R (fitted_vectorizer * list vector);
  punkt : pystr → R (list pystr)               (* [sent_tokenize] *)
}.

(** The attributes of the singleton [meeting_search]. *)
Record MeetingSearch := {
  vectorizer : option fitted_vectorizer;
  indexed_transcript : option pystr;
  sentences : list pystr;
  sentence_vectors : option (list vector)
}.

(** [MeetingSearch.__init__] *)
Definition empty_index : MeetingSearch :=
  {| vectorizer := None; indexed_transcript := None; sentences := [];
     sentence_vectors := None |}.

(** [index_transcript]: the new attributes and the value returned. *)
Definition index_transcript (sk : Sklearn) (self : MeetingSearch) (transcript : pyobj)
  : MeetingSearch * bool :=
  match transcript with
  | PyNone => (self, false)
  | PyStr text =>
      if bool_decide (strip text = []) then (self, false) else
      let text := strip text in
      let sentences :=
        or_else (punkt sk text)
          (filter (λ s, s ≠ []) (strip <$> split [full_stop] text)) in
      if bool_decide (sentences = []) then
        ({| vectorizer := vectorizer self; indexed_transcript := Some text;
            sentences := []; sentence_vectors := sentence_vectors self |}, false)
      else
        match fit_transform sk sentences with
        | inr (v, m) =>
            ({| vectorizer := Some v; indexed_transcript := Some text;
                sentences := sentences; sentence_vectors := Some m |}, true)
        | inl _ =>
            ({| vectorizer := None; indexed_transcript := Some text;
                sentences := sentences; sentence_vectors := None |}, false)
        end
  end.

(** [np.dot(m, q.T).flatten()]: one product per row; rows of another width
    than the query make NumPy raise. *)
Definition dot (row q : vector) : Q :=
  foldr Qplus 0%Q (zip_with Qmult row q).

Definition np_dot (m : list vector) (q : vector) : R (list Q) :=
  for_each (λ row, if bool_decide (length row = length q) then ok (dot row q)
                   else throw (ValueError "shapes not aligned")) m.

(** [np.argsort]: the positions, by increasing value. *)
Fixpoint insert_asc (x : nat * Q) (l : list (nat * Q)) : list (nat * Q) :=
  match l with
  | [] => [x]
  | y :: l' => if Qle_bool x.2 y.2 then x :: l else y :: insert_asc x l'
  end.

Definition argsort (a : list Q) : list nat :=
  (foldr insert_asc [] (imap (λ i v, (i, v)) a)).*1.

Definition positive (q : Q) : bool := negb (Qle_bool q 0).

(** The [try] block of [search], lines 92-108. *)
Definition search_body (v : fitted_vectorizer) (m : list vector) (sentences : list pystr)
    (query : pystr) (num_results : Z) : R (list (pystr * Q)) :=
  let? query_vector := transform v query in
  let? similarity := np_dot m query_vector in
  let top_indices := reverse (slice_from (- num_results) (argsort similarity)) in
  let? hits := keep_if (λ i : nat, let? s := item similarity (Z.of_nat i) in ok (positive s))
                       top_indices in
  let? results := for_each (λ i : nat, let? sentence := item sentences (Z.of_nat i) in
                                       let? s := item similarity (Z.of_nat i) in
                                       ok (sentence, s)) hits in
  if bool_decide (results = []) then ok [(lit "No matching results found.", 0%Q)]
  else ok results.

(** [MeetingSearch.search] *)
Definition search (self : MeetingSearch) (query : pyobj) (num_results : Z)
  : list (pystr * Q) :=
  match vectorizer self, sentence_vectors self with
  | Some v, Some m =>
      if bool_decide (sentences self = []) then
        [(lit "No transcript has been indexed yet.", 0%Q)]
      else
        match query with
        | PyStr q =>
            if bool_decide (strip q = []) then [(lit "Invalid search query.", 0%Q)]
            else
              match search_body v m (sentences self) (strip q) num_results with
              | inr results => results
              | inl e => [(lit ("Search error: " ++ str_exn e), 0%Q)]
              end
        | PyNone => [(lit "Invalid search query.", 0%Q)]
        end
  | _, _ => [(lit "No transcript has been indexed yet.", 0%Q)]
  end.

(** [search_meeting(query, num_results=5)] *)
Definition search_meeting (self : MeetingSearch) (query : pyobj) : list (pystr * Q) :=
  search self query 5.

(** One item of the body of [/search/] (server.py:316-319). *)
Record search_hit := { sentence : pystr; score : Q }.

Definition search_transcript (self : MeetingSearch) (query : pystr) : list search_hit :=
  (λ '(sentence, score), {| sentence := sentence; score := score |})
    <$> search_meeting self (PyStr query).

End SentenceSearch.
Export SentenceSearch.

(** ** Summary options ([server.py]:61-76) *)

Module Options.

(** What [json.loads] returns. *)
Inductive json :=
| JNull
| JBool (b : bool)
| JInt (n : Z)
| JFloat (q : Q)
| JStr (s : string)
| JArr (l : list json)
| JObj (items : list (string * json)).

Record SummaryOptions := {
  num_summary_points : Z;
  summary_style : string
}.

(** [SummaryOptions()] *)
Definition default_options : SummaryOptions :=
  {| num_summary_points := 5; summary_style := "Bullets" |}.

(** How pydantic validates a value for an [int] and for a [str] field.
    Versions differ on what else they coerce; every one takes an integer
    for an [int] field and a string for a [str] field as it is. *)
Class Pydantic := {
  validate_int : json → option Z;
  validate_str : json → option string;
  validate_int_int n : validate_int (JInt n) = Some n;
  validate_str_str s : validate_str (JStr s) = Some s
}.

(** The validators that accept nothing else. *)
#[export] Instance strict_pydantic : Pydantic := {|
  validate_int v := match v with JInt n => Some n | _ => None end;
  validate_str v := match v with JStr s => Some s | _ => None end;
  validate_int_int _ := eq_refl;
  validate_str_str _ := eq_refl
|}.

(** [items.get(key)] on the decoded object. *)
Fixpoint lookup_key (key : string) (items : list (string * json)) : option json :=
  match items with
  | [] => None
  | (k, v) :: rest => if String.eqb k key then Some v else lookup_key key rest
  end.

Definition field {A} (items : list (string * json)) (key : string)
    (validate : json → option A) (dflt : A) : option A :=
  match lookup_key key items with
  | None => Some dflt
  | Some v => validate v
  end.

(** The constructor call on the unpacked dict, server.py:74. *)
Definition SummaryOptions_init `{Pydantic} (options_dict : json) : R SummaryOptions :=
  match options_dict with
  | JObj items =>
      match field items "num_summary_points" validate_int 5%Z,
            field items "summary_style" validate_str "Bullets" with
      | Some n, Some s => ok {| num_summary_points := n; summary_style := s |}
      | _, _ => throw (ValueError "validation error for SummaryOptions")
      end
  | _ => throw (TypeError "argument after ** must be a mapping")
  end.

(** The [options] form field as the handler meets it: not sent, sent
    empty, or a non-empty text given by what [json.loads] makes of it. *)
Inductive form_field :=
| NotSent
| SentEmpty
| Sent (decoded : R json).

(** [get_options] (server.py:69-76) *)
Definition get_options `{Pydantic} (options : form_field) : SummaryOptions :=
  match options with
  | NotSent | SentEmpty => default_options
  | Sent decoded =>
      or_else (let? options_dict := decoded in SummaryOptions_init options_dict)
              default_options
  end.

(** The form values that give no options: nothing, the empty text, a text
    that is not JSON, a JSON value the schema rejects. *)
Inductive unusable `{Pydantic} : form_field → Prop :=
| unusable_not_sent : unusable NotSent
| unusable_empty : unusable SentEmpty
| unusable_not_json e : unusable (Sent (inl e))
| unusable_rejected v e : SummaryOptions_init v = inl e → unusable (Sent (inr v)).

End Options.
Export Options.

(** ** The audio stages ([check_audio.py], [transcription.py]) *)

Module Audio.

(** What the operating system, [magic] and [ffprobe] tell about one path:
    the values [check_audio_file] stores, and the issues its checks collect
    (check_audio.py:32-141). *)
Record file_probe := {
  probe_exists : bool;
  probe_size : Z;
  probe_extension : pyval;
  probe_mime : pyval;
  probe_readable : bool;
  probe_issues : list string
}.

(** What AssemblyAI returns for a file. *)
Record aai_transcript := {
  status_is_error : bool;   (* [transcript.status == aai.TranscriptStatus.error] *)
  error_text : string;      (* [getattr(transcript, 'error', 'Unknown error')], printed *)
  text : pyobj              (* [transcript.text] *)
}.

(** The world outside the process. *)
Record Environment := {
  probe : string → file_probe;
  transcode : string → R string;   (* FFmpeg, then librosa: the WAV written, or
                                      the exception of the librosa block *)
  aai_transcriber : R ();           (* [aai.Transcriber(config=config)] *)
  aai_transcribe : string → R aai_transcript;
  nltk : Nltk;
  sklearn : Sklearn;
  vader : pyobj → sentiment;       (* [analyze_sentiment], which catches all *)
  named_temporary_file : string → string
}.

(** [check_audio_file] (check_audio.py:6-161): the dict it returns. *)
Definition check_audio_file (env : Environment) (filepath : string) : gmap string pyval :=
  let p := probe env filepath in
  if negb (probe_exists p) then
    list_to_map [("file_exists", VBool false); ("file_size", VInt 0);
                 ("mime_type", VNone); ("file_extension", VNone);
                 ("readable", VBool false); ("issues", VList ["File does not exist"])]
  else
    list_to_map [("file_exists", VBool true); ("file_size", VInt (probe_size p));
                 ("mime_type", probe_mime p); ("file_extension", probe_extension p);
                 ("readable", VBool (probe_readable p));
                 ("issues", VList (probe_issues p))].

(** [convert_audio_to_wav] (transcription.py:46-158) *)
Definition convert_audio_to_wav (env : Environment) (input_path : string) : R string :=
  if negb (probe_exists (probe env input_path)) then
    throw (FileNotFoundError ("Audio file not found: " ++ input_path))
  else if (probe_size (probe env input_path) =? 0)%Z then
    throw (ValueError "Audio file is empty (0 bytes)")
  else
    match transcode env input_path with
    | inr output_path => ok output_path
    | inl e => throw (ValueError ("Audio conversion failed: " ++ str_exn e))
    end.

(** [str(v)] and [format(v, ".2f")] for the values of a report. *)
Definition show (v : pyval) : string :=
  match v with
  | VNone => "None"
  | VBool true => "True"
  | VBool false => "False"
  | VInt n => pretty n
  | VStr s => s
  | VList l => "[" ++ String.concat ", " ((λ s, "'" ++ s ++ "'") <$> l) ++ "]"
  end.

Definition format_2f (v : pyval) : R string :=
  match v with
  | VInt n => ok (pretty n ++ ".00")
  | VBool true => ok "1.00"
  | VBool false => ok "0.00"
  | VNone | VList _ => throw (TypeError "unsupported format string")
  | VStr _ => throw (ValueError "Unknown format code 'f' for object of type 'str'")
  end.

End Audio.
Export Audio.

(** ** The suffix of the temporary file ([server.py]:206-236) *)

Module Upload.

(** An uploaded file. *)
Record UploadFile := {
  filename : option string;
  content_type : option string;
  file_content : list Byte.byte
}.

(** [s.split(c)] for a one-character separator. *)
Fixpoint split_char (c : ascii) (s : string) : list string :=
  match s with
  | EmptyString => [EmptyString]
  | String a s' =>
      let rest := split_char c s' in
      if Ascii.eqb a c then EmptyString :: rest
      else match rest with
           | piece :: pieces => String a piece :: pieces
           | [] => [String a EmptyString]
           end
  end.

(** [c in s] *)
Fixpoint has_char (c : ascii) (s : string) : bool :=
  match s with
  | EmptyString => false
  | String a s' => Ascii.eqb a c || has_char c s'
  end.

(** [parts[-1]] of a list that is not empty. *)
Definition last_part (parts : list string) : string := default "" (last parts).

(** The suffixes the handler keeps (line 215). *)
Definition audio_suffixes : list string :=
  ["mp3"; "wav"; "m4a"; "flac"; "aac"; "ogg"; "mp4"; "wma"].

Section WithLower.
(** [str.lower], from the Unicode tables. *)
Context (lower : string → string).

(** Lines 207-212: the suffix read off the file name. *)
Definition extension_of_name (filename : option string) : option string :=
  match filename with
  | Some name =>
      if String.eqb name "" then None
      else
        let parts := split_char "." name in
        if (1 <? length parts)%nat then Some (lower (last_part parts)) else None
  | None => None
  end.

(** Lines 217-234: the suffix read off the content type. *)
Definition extension_of_content_type (content_type : option string) : string :=
  match content_type with
  | Some ct =>
      if negb (String.eqb ct "") && has_char "/" ct then
        let mime_subtype := last_part (split_char "/" ct) in
        if bool_decide (mime_subtype ∈ ["mpeg"; "mp3"]) then "mp3"
        else if bool_decide (mime_subtype ∈ ["wav"; "x-wav"; "wave"]) then "wav"
        else if bool_decide (mime_subtype ∈ ["aac"]) then "aac"
        else if bool_decide (mime_subtype ∈ ["ogg"; "vorbis"]) then "ogg"
        else if bool_decide (mime_subtype ∈ ["flac"]) then "flac"
        else "mp3"
      else "mp3"
  | None => "mp3"
  end.

(** Lines 206-234: the suffix of the temporary file. *)
Definition file_extension (file : UploadFile) : string :=
  match extension_of_name (filename file) with
  | Some extension =>
      if negb (String.eqb extension "") && bool_decide (extension ∈ audio_suffixes)
      then extension
      else extension_of_content_type (content_type file)
  | None => extension_of_content_type (content_type file)
  end.

End WithLower.

End Upload.
Export Upload.

(** ** Validation of an audio file ([file_validation.py]) *)

Module Validation.

(** [needle in hay] *)
Fixpoint contains (needle hay : string) : bool :=
  String.prefix needle hay ||
  match hay with
  | EmptyString => false
  | String _ hay' => contains needle hay'
  end.

(** What [magic], [ffprobe] and [librosa] do when asked. *)
Inductive magic_answer :=
| MagicMissing                    (* [import magic] raises [ImportError] *)
| MagicRaises (e : pyexn)         (* any other exception of the block *)
| MagicSays (mime_type : string).

Inductive ffprobe_answer :=
| FfprobeMissing                  (* not in the path *)
| FfprobeRaises                   (* any exception of the block *)
| FfprobePrints (stdout : string).

Inductive librosa_answer :=
| LibrosaMissing                  (* [import librosa] raises [ImportError] *)
| LibrosaRaises (e : pyexn)
| LibrosaDuration (duration : Q).

(** What the machine tells about the path. *)
Record validation_probe := {
  v_exists : bool;
  v_size : Z;
  v_extension : string;           (* [os.path.splitext(path)[1].lower()] *)
  v_magic : magic_answer;
  v_guess : option string;        (* [mimetypes.guess_type(path)[0]] *)
  v_ffprobe : ffprobe_answer;
  v_librosa : librosa_answer
}.

(** Line 29 *)
Definition audio_extensions : list string :=
  [".mp3"; ".wav"; ".m4a"; ".flac"; ".aac"; ".ogg"; ".mp4"; ".wma"].

Definition is_media (mime_type : string) : bool :=
  String.prefix "audio/" mime_type || String.prefix "video/" mime_type.

(** Lines 34-50: the MIME type, from [magic] or else from [mimetypes]; a
    verdict when it ends the validation. *)
Definition mime_check (p : validation_probe) : R (option (bool * string)) :=
  match v_magic p with
  | MagicSays mime_type =>
      if negb (is_media mime_type) then
        ok (Some (false, "File does not appear to be audio. MIME type: " ++ mime_type))
      else ok None
  | MagicRaises e => throw e
  | MagicMissing =>
      match v_guess p with
      | Some mime_type =>
          if negb (String.eqb mime_type "") && negb (is_media mime_type) then
            ok (Some (false, "File does not appear to be audio based on extension. "
                             ++ "Guessed MIME type: " ++ mime_type))
          else ok None
      | None => ok None
      end
  end.

(** Lines 52-82 *)
Definition ffprobe_check (p : validation_probe) : option (bool * string) :=
  match v_ffprobe p with
  | FfprobePrints stdout =>
      if negb (contains "codec_type=audio" stdout) then
        Some (false, "File does not contain valid audio streams according to FFprobe")
      else None
  | FfprobeMissing | FfprobeRaises => None
  end.

(** Lines 84-95 *)
Definition librosa_check (p : validation_probe) : option (bool * string) :=
  match v_librosa p with
  | LibrosaDuration duration =>
      if Qle_bool duration 0 then
        Some (false, "File could not be read as audio by librosa (zero duration)")
      else None
  | LibrosaRaises e =>
      Some (false, "File could not be read as audio by librosa: " ++ str_exn e)
  | LibrosaMissing => None
  end.

(** [validate_audio_file] (file_validation.py:6-98) *)
Definition validate_audio_file (file_path : string) (p : validation_probe)
  : R (bool * string) :=
  if negb (v_exists p) then ok (false, "File does not exist: " ++ file_path)
  else if (v_size p =? 0)%Z then ok (false, "File is empty (0 bytes)")
  else if negb (bool_decide (v_extension p ∈ audio_extensions)) then
    ok (false, "File extension '" ++ v_extension p
               ++ "' does not appear to be a supported audio format")
  else
    let? verdict := mime_check p in
    match verdict with
    | Some verdict => ok verdict
    | None =>
        match ffprobe_check p with
        | Some verdict => ok verdict
        | None =>
            match librosa_check p with
            | Some verdict => ok verdict
            | None => ok (true, "File appears to be a valid audio file")
            end
        end
    end.

End Validation.
Export Validation.

(** ** The server process ([server.py]) *)

Module Server.

(** The lines the process prints that matter here: the one of
    [update_status] (line 85), kept as its three fields, the one of the
    executor's handler (line 166) and the one of the reaper (line 341). *)
Inductive log_line :=
| JobLine (job_id : string) (progress : Z) (message : string)
| JobErrorLine (job_id : string) (error_message : string)
| CleanedLine (count : nat).

(** What else happens while the executor awaits a stage: time passes, the
    reaper wakes up, a client polls a job. *)
Inductive env_event :=
| Elapse (seconds : Q)
| ReaperTick
| Poll (job_id : string).

(** A call handed to [background_tasks.add_task]. *)
Record task := {
  task_audio_path : string;
  task_job_id : string;
  task_options : SummaryOptions
}.

Record world := {
  job_status : registry;
  meeting_search : MeetingSearch;
  clock : Q;                          (* [time.time()] *)
  stdout : list log_line;
  background_tasks : list task;
  responses : list (R snapshot);      (* what the status endpoint answered *)
  pending : list (list env_event)     (* one entry per coming [await] and per
                                         blocking call of the worker thread *)
}.

Definition with_job_status (m : registry) (w : world) : world :=
  {| job_status := m; meeting_search := meeting_search w; clock := clock w;
     stdout := stdout w; background_tasks := background_tasks w;
     responses := responses w; pending := pending w |}.

Definition with_meeting_search (s : MeetingSearch) (w : world) : world :=
  {| job_status := job_status w; meeting_search := s; clock := clock w;
     stdout := stdout w; background_tasks := background_tasks w;
     responses := responses w; pending := pending w |}.

Definition with_clock (t : Q) (w : world) : world :=
  {| job_status := job_status w; meeting_search := meeting_search w; clock := t;
     stdout := stdout w; background_tasks := background_tasks w;
     responses := responses w; pending := pending w |}.

Definition print (l : log_line) (w : world) : world :=
  {| job_status := job_status w; meeting_search := meeting_search w; clock := clock w;
     stdout := stdout w ++ [l]; background_tasks := background_tasks w;
     responses := responses w; pending := pending w |}.

Definition add_task (t : task) (w : world) : world :=
  {| job_status := job_status w; meeting_search := meeting_search w; clock := clock w;
     stdout := stdout w; background_tasks := background_tasks w ++ [t];
     responses := responses w; pending := pending w |}.

Definition respond (r : R snapshot) (w : world) : world :=
  {| job_status := job_status w; meeting_search := meeting_search w; clock := clock w;
     stdout := stdout w; background_tasks := background_tasks w;
     responses := responses w ++ [r]; pending := pending w |}.

Definition with_pending (p : list (list env_event)) (w : world) : world :=
  {| job_status := job_status w; meeting_search := meeting_search w; clock := clock w;
     stdout := stdout w; background_tasks := background_tasks w;
     responses := responses w; pending := p |}.

(** Code that reads and writes the process state and may raise. *)
Definition M (A : Type) : Type := world → world * R A.

#[export] Instance M_ret : MRet M := λ A a w, (w, inr a).

#[export] Instance M_bind : MBind M := λ A B f m w,
  match m w with
  | (w', inr a) => f a w'
  | (w', inl e) => (w', inl e)
  end.

Definition raise {A} (e : pyexn) : M A := λ w, (w, inl e).

Definition lift {A} (r : R A) : M A := λ w, (w, r).

Definition modify (f : world → world) : M unit := λ w, (f w, inr ()).

(** [try: body  except Exception as e: handler(e)] *)
Definition try_except {A} (body : M A) (handler : pyexn → M A) : M A := λ w,
  match body w with
  | (w', inl e) => handler e w'
  | (w', inr a) => (w', inr a)
  end.

(** One tick of the reaper loop (server.py:330-341). *)
Definition cleanup_tick (w : world) : world :=
  let (left, count) := sweep (clock w) (job_status w) in
  print (CleanedLine count) (with_job_status left w).

Definition apply_event (w : world) (ev : env_event) : world :=
  match ev with
  | Elapse dt => with_clock (clock w + dt) w
  | ReaperTick => cleanup_tick w
  | Poll job_id => respond (get_job_status (job_status w) job_id) w
  end.

(** [await run_in_threadpool(...)], and a blocking call inside the worker
    thread: the other tasks run meanwhile. *)
Definition await : M unit := λ w,
  match pending w with
  | [] => (w, inr ())
  | events :: rest => (foldl apply_event (with_pending rest w) events, inr ())
  end.

(** [update_status] (server.py:78-85) *)
Definition update_status (job_id : string) (progress : Z) (message : string) : M unit := λ w,
  match job_status w !! job_id with
  | Some j =>
      (print (JobLine job_id progress message)
         (with_job_status (<[job_id := set_progress progress message (clock w) j]>
                             (job_status w)) w),
       inr ())
  | None => (w, inr ())
  end.

(** [job_status[job_id][field] = value] *)
Definition setitem (job_id : string) (f : job → job) : M unit := λ w,
  match job_status w !! job_id with
  | Some j => (with_job_status (<[job_id := f j]> (job_status w)) w, inr ())
  | None => (w, inl (KeyError job_id))
  end.

(** [transcribe_audio] (transcription.py:160-263) *)
Definition transcribe_audio (env : Environment) (audio_path : string)
    (status_callback : option (Z → string → M unit)) : M pyobj :=
  let report (p : Z) (m : string) : M unit :=
    match status_callback with
    | Some callback => callback p m
    | None => mret ()
    end in
  report 5%Z "Preparing audio for transcription...";;
  if negb (probe_exists (probe env audio_path)) then
    report 0%Z ("Audio file not found: " ++ audio_path);;
    raise (FileNotFoundError ("Audio file not found: " ++ audio_path))
  else if (probe_size (probe env audio_path) =? 0)%Z then
    report 0%Z "Audio file is empty (0 bytes)";;
    raise (ValueError "Audio file is empty (0 bytes)")
  else
  report 8%Z "Checking audio file format...";;
  await;;
  let audio_info := check_audio_file env audio_path in
  audio_error ← lift (getitem audio_info "error");
  (if truthy audio_error then
     report 10%Z ("Converting audio to WAV format (original had issues: "
                  ++ show audio_error ++ ")")
   else
     duration ← lift (let? d := getitem audio_info "duration" in format_2f d);
     sample_rate ← lift (getitem audio_info "sample_rate");
     channels ← lift (getitem audio_info "channels");
     report 10%Z ("Audio file looks valid: " ++ duration ++ "s, " ++ show sample_rate
                  ++ "Hz, " ++ show channels ++ " channel(s)"));;
  wav_audio_path ←
    try_except
      (await;;
       wav ← lift (convert_audio_to_wav env audio_path);
       report 15%Z "Audio converted to WAV format successfully";;
       mret wav)
      (λ e, report 0%Z ("Audio conversion failed: " ++ str_exn e);;
            raise (ValueError ("Failed to convert audio format: " ++ str_exn e)));
  let wav_info := check_audio_file env wav_audio_path in
  wav_error ← lift (getitem wav_info "error");
  (if truthy wav_error then
     report 0%Z ("WAV conversion produced invalid file: " ++ show wav_error);;
     raise (ValueError ("WAV conversion produced invalid file: " ++ show wav_error))
   else mret ());;
  report 30%Z "Starting transcription with AssemblyAI SDK...";;
  try_except
    (lift (aai_transcriber env);;
     report 40%Z "Submitting audio for transcription...";;
     await;;
     transcript ← lift (aai_transcribe env wav_audio_path);
     (if status_is_error transcript then
        let error_message := "Transcription failed: " ++ error_text transcript in
        report 0%Z error_message;;
        raise (Exception_ error_message)
      else mret ());;
     report 100%Z "Transcription completed successfully!";;
     mret (text transcript))
    (λ e, report 0%Z ("Transcription error: " ++ str_exn e);;
          raise e).

(** [process_audio_task] (server.py:87-177).  The [finally] block only
    removes the temporary files and logs what fails there. *)
Definition process_audio_task (env : Environment) (temp_audio_path job_id : string)
    (options : SummaryOptions) : M unit :=
  try_except
    (let status_callback (progress : Z) (message : string) : M unit :=
       update_status job_id progress message in
     update_status job_id 5%Z "Checking audio file format...";;
     await;;
     let audio_info := check_audio_file env temp_audio_path in
     (if truthy (dict_get audio_info "error") then
        update_status job_id 10%Z
          ("Audio needs conversion: " ++ show (dict_get audio_info "error"))
      else
        let duration := dict_get_default audio_info "duration" (VInt 0) in
        let sample_rate := dict_get_default audio_info "sample_rate" (VInt 0) in
        let channels := dict_get_default audio_info "channels" (VInt 0) in
        duration ← lift (format_2f duration);
        update_status job_id 10%Z
          ("Audio file: " ++ duration ++ "s, " ++ show sample_rate ++ "Hz, "
           ++ show channels ++ " channel(s)"));;
     wav_path ←
       try_except
         (update_status job_id 15%Z "Converting audio to proper format...";;
          await;;
          wav_path ← lift (convert_audio_to_wav env temp_audio_path);
          update_status job_id 20%Z "Audio converted successfully";;
          mret wav_path)
         (λ e, update_status job_id 0%Z ("Audio conversion failed: " ++ str_exn e);;
               raise (ValueError ("Audio conversion failed: " ++ str_exn e)));
     update_status job_id 25%Z "Starting transcription...";;
     await;;
     transcript ← transcribe_audio env wav_path (Some status_callback);
     update_status job_id 80%Z "Transcription complete. Generating summary...";;
     await;;
     modify (λ w, with_meeting_search
                    (index_transcript (sklearn env) (meeting_search w) transcript).1 w);;
     await;;
     let summary := styled_summary (nltk env) (num_summary_points options)
                                   (summary_style options) transcript in
     update_status job_id 90%Z "Analyzing sentiment...";;
     await;;
     let sentiment := vader env transcript in
     update_status job_id 100%Z "Processing complete";;
     setitem job_id (set_complete true);;
     setitem job_id (set_results {| transcript := transcript; summary := summary;
                                    sentiment_report := sentiment |}))
    (λ e, let error_message := str_exn e in
          modify (print (JobErrorLine job_id error_message));;
          update_status job_id 0%Z ("Error: " ++ error_message);;
          setitem job_id (set_error error_message)).

(** The body of a successful submission. *)
Record submitted := { job_id_of : string; status_field : string }.

(** Lines 247-257: [magic] is asked for the type of the temporary file;
    only [ImportError] is caught. *)
Definition detect_file_type (p : validation_probe) : M unit :=
  match v_magic p with
  | MagicRaises e => raise e
  | MagicMissing | MagicSays _ => mret ()
  end.

(** Lines 259-268: the verdict of [validate_audio_file] is printed; only
    [ImportError] is caught. *)
Definition try_validation (temp_audio_path : string) (p : validation_probe) : M unit :=
  verdict ← lift (validate_audio_file temp_audio_path p);
  mret ().

(** [process_audio] (server.py:179-286).  [job_id] is the value of
    [uuid.uuid4()], [lower] is [str.lower] and [p] is what the machine
    tells about the temporary file, which gets the suffix of lines
    206-236. *)
Definition process_audio (env : Environment) (lower : string → string)
    (job_id : string) (file : UploadFile) (options : SummaryOptions)
    (p : validation_probe) : M submitted :=
  let file_size := length (file_content file) in
  if (file_size =? 0)%nat then
    raise (HTTPException 400 "File is empty (0 bytes)")
  else
    let extension := file_extension lower file in
    let temp_audio_path := named_temporary_file env ("." ++ extension) in
    detect_file_type p;;
    try_validation temp_audio_path p;;
    modify (λ w, with_job_status (<[job_id := new_job (clock w)]> (job_status w)) w);;
    modify (add_task {| task_audio_path := temp_audio_path; task_job_id := job_id;
                        task_options := options |});;
    mret {| job_id_of := job_id; status_field := "processing" |}.

(** The whole [POST /process-audio/]: the dependency [get_options], then the
    handler. *)
Definition post_process_audio `{Pydantic} (env : Environment) (lower : string → string)
    (job_id : string) (file : UploadFile) (options : form_field)
    (p : validation_probe) : M submitted :=
  process_audio env lower job_id file (get_options options) p.

(** The progress values [update_status] wrote for a job, oldest first. *)
Definition progress_written (job_id : string) (w : world) : list Z :=
  omap (λ l, match l with
             | JobLine id p _ => if String.eqb id job_id then Some p else None
             | _ => None
             end) (stdout w).

End Server.
Export Server.

(** ** Assertions on the code of the server *)

Module Hoare.

(** [triple P m Q E]: started in a world satisfying [P], [m] ends in a
    world satisfying [Q a] when it returns [a] and [E e] when it raises
    [e]. *)
Definition triple {A} (P : world → Prop) (m : M A)
    (Q : A → world → Prop) (E : pyexn → world → Prop) : Prop :=
  ∀ w, P w → match m w with
             | (w', inr a) => Q a w'
             | (w', inl e) => E e w'
             end.

(** The record of [id], if there is one, carries no results and is not
    marked complete. *)
Definition unfinished (id : string) (w : world) : Prop :=
  ∀ j, job_status w !! id = Some j → results j = None ∧ complete j = false.

(** The record of [id], if there is one, carries no results and a
    non-empty error text. *)
Definition failed (id : string) (w : world) : Prop :=
  ∀ j, job_status w !! id = Some j →
       results j = None ∧ complete j = false ∧
       ∃ msg, error j = Some msg ∧ msg ≠ "" ∧ message j = "Error: " ++ msg.

(** [e] has a text, and the record of [id] is still unfinished. *)
Definition raised_with_text (id : string) (e : pyexn) (w : world) : Prop :=
  unfinished id w ∧ str_exn e ≠ "".

(** Nothing else is scheduled, the job [id] is in the registry and the
    progress values written for it so far are exactly [l]. *)
Definition wrote (id : string) (l : list Z) (w : world) : Prop :=
  pending w = [] ∧ is_Some (job_status w !! id) ∧ progress_written id w = l.

(** The progress values written for [id] begin with [l]. *)
Definition wrote_first (id : string) (l : list Z) (w : world) : Prop :=
  ∃ rest, progress_written id w = (l ++ rest)%list.

End Hoare.
Export Hoare.

(** ** Sample surroundings, for running the definitions *)

Module Samples.

(** A tokenizer that cuts after every full stop followed by a blank. *)
Definition nltk_at_hand : Nltk := {|
  sent_tokenize t := ok (split [full_stop; space] t);
  word_tokenize s := ok (split_ws s);
  stopwords_words := ok fallback_stop_words;
  lower s := s;
  isalnum s := negb (bool_decide (s = []))
|}.

(** NLTK without its data: every lookup of a resource raises. *)
Definition nltk_without_data : Nltk := {|
  sent_tokenize t := throw (LookupError "Resource punkt not found");
  word_tokenize s := throw (LookupError "Resource punkt not found");
  stopwords_words := throw (LookupError "Resource stopwords not found");
  lower s := s;
  isalnum s := negb (bool_decide (s = []))
|}.

(** A vectorizer with the one-word vocabulary "budget". *)
Definition has_budget (s : pystr) : Q :=
  if bool_decide (lit "budget" ∈ split_ws s) then 1%Q else 0%Q.

Definition sklearn_at_hand : Sklearn := {|
  fit_transform l := ok ({| transform q := ok [has_budget q] |}, (λ s, [has_budget s]) <$> l);
  punkt t := ok (split [full_stop; space] t)
|}.

(** A machine where every file is a one kilobyte WAV and every service
    answers. *)
Definition env_at_hand : Environment := {|
  probe p := {| probe_exists := true; probe_size := 1024; probe_extension := VStr ".wav";
                probe_mime := VStr "audio/x-wav"; probe_readable := true;
                probe_issues := [] |};
  transcode p := ok "/tmp/tmpq3x9.wav";
  aai_transcriber := ok ();
  aai_transcribe p := ok {| status_is_error := false; error_text := "None";
                            text := PyStr (lit "We agreed on the budget. Thanks.") |};
  nltk := nltk_at_hand;
  sklearn := sklearn_at_hand;
  vader t := [("Overall Sentiment", VStr "Neutral")];
  named_temporary_file n := "/tmp/tmpk2v7.mp3"
|}.

(** A process that has just started, at time [t], with [events] to come. *)
Definition fresh_world (t : Q) (events : list (list env_event)) : world := {|
  job_status := ∅; meeting_search := empty_index; clock := t; stdout := [];
  background_tasks := []; responses := []; pending := events
|}.

Definition talk : UploadFile := {|
  filename := Some "talk.mp3"; content_type := Some "audio/mpeg";
  file_content := ["I"; "D"; "3"]%byte
|}.

Definition nothing : UploadFile := {|
  filename := Some "talk.mp3"; content_type := Some "audio/mpeg"; file_content := []
|}.

(** What the machine tells about the temporary file of an upload: three
    bytes that [magic] takes for MPEG audio. *)
Definition on_disk : validation_probe := {|
  v_exists := true; v_size := 3; v_extension := ".mp3";
  v_magic := MagicSays "audio/mpeg"; v_guess := Some "audio/mpeg";
  v_ffprobe := FfprobeMissing; v_librosa := LibrosaMissing
|}.

(** The index after one transcript went through [index_transcript]. *)
Definition indexed : MeetingSearch :=
  (index_transcript sklearn_at_hand empty_index
     (PyStr (lit "We agreed on the budget. Thanks."))).1.

(** The job 6f1c: [talk] is submitted at time 0 and its executor runs while
    [events] happen around it. *)
Definition submitted_world (events : list (list env_event)) : world :=
  (post_process_audio env_at_hand (λ s, s) "6f1c" talk NotSent on_disk
     (fresh_world 0 events)).1.

Definition run_job (events : list (list env_event)) : world * R () :=
  process_audio_task env_at_hand "/tmp/tmpk2v7.mp3" "6f1c" default_options
    (submitted_world events).

End Samples.
Export Samples.

(** ** The order of the search results *)

Module Ranking.

(** The order [np.argsort] sorts the pairs of a position and its value by. *)
Definition by_value (p q : nat * Q) : Prop := (p.2 <= q.2)%Q.

(** The position [i] holds a value of [a] that is not above the one at [j]. *)
Definition not_above (a : list Q) (i j : nat) : Prop :=
  ∃ x y, a !! i = Some x ∧ a !! j = Some y ∧ (x <= y)%Q.

End Ranking.
Export Ranking.

(** ** The context of a search result ([search.py]:112-150) *)

Module SearchContext.
Local Open Scope result_scope.

(** [f"**{s}**"] *)
Definition highlight (s : pystr) : pystr := (lit "**" ++ s ++ lit "**")%list.

(** [MeetingSearch.get_context] (search.py:112-141); [sentence_index] is
    [None] for a value that is not an [int]. *)
Definition get_context (self : MeetingSearch) (sentence_index : option Z) (window : Z)
  : R pystr :=
  if bool_decide (sentences self = []) then ok (lit "No transcript available") else
  match sentence_index with
  | None => ok (lit "Invalid sentence index")
  | Some sentence_index =>
      let len := Z.of_nat (length (sentences self)) in
      if (sentence_index <? 0)%Z || (len <=? sentence_index)%Z then
        ok (lit "Invalid sentence index")
      else
        let start := Z.max 0 (sentence_index - window) in
        let end_ := Z.min len (sentence_index + window + 1) in
        let? context :=
          for_each (λ i, if (i =? sentence_index)%Z
                         then let? s := item (sentences self) i in ok (highlight s)
                         else item (sentences self) i)
                   (range start end_ 1) in
        ok (join [space] context)
  end.

(** [MeetingSearch.get_sentence_count] (search.py:143-150) *)
Definition get_sentence_count (self : MeetingSearch) : Z :=
  Z.of_nat (length (sentences self)).

End SearchContext.
Export SearchContext.

(** ** More sample data *)

Module Cases.

(** scikit-learn on documents made of stop words only: the vocabulary is
    empty and [fit_transform] raises. *)
Definition sklearn_empty_vocabulary : Sklearn := {|
  fit_transform l :=
    throw (ValueError "empty vocabulary; perhaps the documents only contain stop words");
  punkt t := ok (split [full_stop; space] t)
|}.

(** An index that holds four sentences. *)
Definition notes : MeetingSearch :=
  {| vectorizer := None; indexed_transcript := None;
     sentences := [lit "Budget approved."; lit "Hiring paused."; lit "Launch in May.";
                   lit "Thanks."];
     sentence_vectors := None |}.

End Cases.
Export Cases.

(** ** What a run leaves of the registry *)

Module Frame.

(** The records of [w'] come from [w]: each is the record [w] has under
    the same id, with the same time of creation, and unchanged when the id
    is not [id]. *)
Definition comes_from (id : string) (w w' : world) : Prop :=
  ∀ id' j', job_status w' !! id' = Some j' →
            ∃ j, job_status w !! id' = Some j ∧ created_at j' = created_at j ∧
                 (id' ≠ id → j' = j).

End Frame.
Export Frame.

(** ** The header check of [check_audio_file] ([check_audio.py]:78-107) *)

Module Header.

(** [bytes.hex()]: two digits per byte, in lower case. *)
Definition hex_digit (n : N) : ascii :=
  default "0"%char (String.get (N.to_nat n) "0123456789abcdef").

Definition hex_of_byte (b : Byte.byte) (rest : string) : string :=
  String (hex_digit (Byte.to_N b / 16)) (String (hex_digit (Byte.to_N b mod 16)) rest).

Definition hex (bs : list Byte.byte) : string := foldr hex_of_byte "" bs.

(** The signatures, in the order of the dict (lines 84-94). *)
Definition headers : list (string * string) :=
  [("4944330", "MP3 with ID3v2 tag");
   ("fffb", "MP3 frame sync");
   ("fff3", "MP3 frame sync");
   ("fff2", "MP3 frame sync");
   ("fffe", "MP3 frame sync");
   ("52494646", "WAV/RIFF format");
   ("4f676753", "Ogg format");
   ("664c6143", "FLAC format");
   ("6674797069", "MP4/M4A container")].

(** The loop of lines 96-101: the name of the first signature the header
    starts with. *)
Fixpoint first_match (header : string) (headers : list (string * string)) : option string :=
  match headers with
  | [] => None
  | (sig, format_name) :: rest =>
      if String.prefix sig header then Some format_name else first_match header rest
  end.

(** Lines 79-104 for a file that can be read: the format detected from the
    first 16 bytes, and the issue added otherwise. *)
Definition detected_format (content : list Byte.byte) : option string :=
  first_match (hex (take 16 content)) headers.

Definition header_issues (content : list Byte.byte) : list string :=
  match detected_format content with
  | Some _ => []
  | None => ["File header doesn't match common audio formats"]
  end.

(** The same signatures as bytes: "ID3" and a byte below 16, or one of
    these starts. *)
Definition byte_signatures : list (list Byte.byte) :=
  [[xff; xfb]; [xff; xf3]; [xff; xf2]; [xff; xfe];
   [x52; x49; x46; x46]; [x4f; x67; x67; x53]; [x66; x4c; x61; x43];
   [x66; x74; x79; x70; x69]]%byte.

Definition known_start (content : list Byte.byte) : Prop :=
  (∃ v rest, content = ([x49; x44; x33] ++ v :: rest)%byte%list ∧ (Byte.to_N v < 16)%N) ∨
  (∃ p, p ∈ byte_signatures ∧ p `prefix_of` content).

End Header.
Export Header.

(** ** The sentiment report ([sentiment.py]:35-151) *)

Module Sentiment.

(** What [polarity_scores] returns for a sentence. *)
Record polarity := { neg : Q; neu : Q; pos : Q; compound : Q }.

(** What NLTK answers to the analysis, and how Python prints and rounds a
    float. *)
Record Vader := {
  analyzer : R ();                              (* [SentimentIntensityAnalyzer()] *)
  polarity_scores : pystr → R polarity;
  tokenize : pystr → R (list pystr);            (* [sent_tokenize] *)
  percent : Q → string;                         (* [f"{x:.1%}"] *)
  round_to : nat → Q → Q                        (* [round(x, digits)] *)
}.

Inductive label := POSITIVE | NEGATIVE | NEUTRAL.

#[export] Instance label_eq_dec : EqDecision label.
Proof. solve_decision. Defined.

(** Lines 90-96 *)
Definition label_of (compound : Q) : label :=
  if Qle_bool (5 # 100) compound then POSITIVE
  else if Qle_bool compound (- (5 # 100)) then NEGATIVE
  else NEUTRAL.

(** The loop of lines 86-98: a sentence [polarity_scores] raises on only
    prints a line. *)
Definition score_all (v : Vader) (sentences : list pystr) : list polarity * list label :=
  foldl (λ (lists : list polarity * list label) sentence,
           match polarity_scores v sentence with
           | inr sentiment_score =>
               (lists.1 ++ [sentiment_score],
                lists.2 ++ [label_of (compound sentiment_score)])%list
           | inl _ => lists
           end)
        ([], []) sentences.

(** [Counter(sentiments).get(l, 0)] *)
Definition count (l : label) (sentiments : list label) : nat :=
  length (filter (eq l) sentiments).

(** [sum(f(score) for score in scores) / total] *)
Definition average (f : polarity → Q) (scores : list polarity) (total : nat) : Q :=
  (foldl Qplus 0 (f <$> scores) / inject_Z (Z.of_nat total))%Q.

(** The dict under "Stats". *)
Record stats := {
  total_sentences : nat;
  positive_sentences : nat;
  negative_sentences : nat;
  neutral_sentences : nat;
  average_positive : Q;
  average_negative : Q;
  average_neutral : Q
}.

(** The dicts [analyze_sentiment] returns. *)
Inductive report :=
| InvalidInput                       (* "Invalid input", with "Error" *)
| NeutralNote (note : string)        (* "Neutral", all at zero, with "Note" *)
| NoScores                           (* "Analysis failed", with "Note" only *)
| AnalysisFailed (error : string)    (* "Analysis failed", with "Error" and "Note" *)
| Analysed (overall : string) (positive negative neutral : string) (compound_score : Q)
           (s : stats).

(** [analyze_sentiment]; [PyNone] stands for any value that is not a
    [str]. *)
Definition analyze_sentiment (v : Vader) (transcript : pyobj) : report :=
  match transcript with
  | PyNone => InvalidInput
  | PyStr transcript =>
      let transcript := strip transcript in
      if bool_decide (transcript = []) then NeutralNote "Empty input provided" else
      match analyzer v with
      | inl e => AnalysisFailed (str_exn e)
      | inr _ =>
          let sentences :=
            or_else (tokenize v transcript)
              (filter (λ s, s ≠ []) (strip <$> split [full_stop] transcript)) in
          if bool_decide (sentences = []) then NeutralNote "No sentences detected" else
          let '(scores, sentiments) := score_all v sentences in
          if bool_decide (scores = []) then NoScores else
          let total := length sentiments in
          let positive := count POSITIVE sentiments in
          let negative := count NEGATIVE sentiments in
          let neutral := count NEUTRAL sentiments in
          let avg_compound := average compound scores total in
          let avg_pos := average pos scores total in
          let avg_neg := average neg scores total in
          let avg_neu := average neu scores total in
          let overall :=
            if Qle_bool (5 # 100) avg_compound then "Positive"
            else if Qle_bool avg_compound (- (5 # 100)) then "Negative"
            else "Neutral" in
          let ratio (k : nat) := (inject_Z (Z.of_nat k) / inject_Z (Z.of_nat total))%Q in
          Analysed overall (percent v (ratio positive)) (percent v (ratio negative))
                   (percent v (ratio neutral)) (round_to v 2 avg_compound)
                   {| total_sentences := total;
                      positive_sentences := positive;
                      negative_sentences := negative;
                      neutral_sentences := neutral;
                      average_positive := round_to v 3 avg_pos;
                      average_negative := round_to v 3 avg_neg;
                      average_neutral := round_to v 3 avg_neu |}
      end
  end.

End Sentiment.
Export Sentiment.

Module SentimentSample.

(** A VADER that knows two words. *)
Definition vader_at_hand : Vader := {|
  analyzer := ok ();
  polarity_scores s :=
    if bool_decide (lit "great" ∈ split_ws s)
    then ok {| neg := 0; neu := 1 # 2; pos := 1 # 2; compound := 6 # 10 |}
    else if bool_decide (lit "late" ∈ split_ws s)
    then ok {| neg := 1 # 2; neu := 1 # 2; pos := 0; compound := - (3 # 10) |}
    else ok {| neg := 0; neu := 1; pos := 0; compound := 0 |};
  tokenize t := ok (split [full_stop; space] t);
  percent q := "";
  round_to digits q := q
|}.

End SentimentSample.
Export SentimentSample.

(** ** The error a job ends with *)

Module Verdict.

(** The exception [transcribe_audio] raises for a file. *)
Definition transcription_exception (env : Environment) (audio_path : string) : pyexn :=
  if negb (probe_exists (probe env audio_path))
  then FileNotFoundError ("Audio file not found: " ++ audio_path)
  else if (probe_size (probe env audio_path) =? 0)%Z
       then ValueError "Audio file is empty (0 bytes)"
       else KeyError "error".

(** The exception that reaches the handler of the executor. *)
Definition stage_exception (env : Environment) (temp_audio_path : string) : pyexn :=
  match convert_audio_to_wav env temp_audio_path with
  | inl e => ValueError ("Audio conversion failed: " ++ str_exn e)
  | inr wav_path => transcription_exception env wav_path
  end.

(** The record of [id], if there is one, is the one of a job that failed
    with the text [msg]. *)
Definition failed_with (id msg : string) (w : world) : Prop :=
  ∀ j, job_status w !! id = Some j →
       error j = Some msg ∧ message j = "Error: " ++ msg ∧ progress j = 0%Z ∧
       complete j = false ∧ results j = None.

End Verdict.
Export Verdict.

Module ConversionSample.

(** A machine like [env_at_hand] on which no decoder finds audio in the
    upload. *)
Definition env_without_audio : Environment := {|
  probe := probe env_at_hand;
  transcode p := throw (ValueError "No audio data found in file");
  aai_transcriber := aai_transcriber env_at_hand;
  aai_transcribe := aai_transcribe env_at_hand;
  nltk := nltk env_at_hand;
  sklearn := sklearn env_at_hand;
  vader := vader env_at_hand;
  named_temporary_file := named_temporary_file env_at_hand
|}.

End ConversionSample.
Export ConversionSample.

(** ** A file the validation refuses *)

Module SubmissionSample.

(** A machine on which the file is two bytes of text: [magic] says so, and
    the validation refuses the file. *)
Definition text_file : validation_probe := {|
  v_exists := true; v_size := 2; v_extension := ".mp3";
  v_magic := MagicSays "text/plain"; v_guess := Some "audio/mpeg";
  v_ffprobe := FfprobeMissing; v_librosa := LibrosaMissing
|}.

End SubmissionSample.
Export SubmissionSample.

(** * Properties *)

(** ** The reaper *)

Section Reaper.
Implicit Types (reg : registry) (id : string) (j : job) (now : Q).

Lemma expired_spec now j :
  expired now j = true ↔ (86400 < now - created_at j)%Q.
Proof.
  unfold expired. rewrite negb_true_iff, <- not_true_iff_false, Qle_bool_iff.
  split; [apply Qnot_le_lt | apply Qlt_not_le].
Qed.

Lemma lookup_delete_all keys reg id :
  delete_all keys reg !! id = if decide (id ∈ keys) then None else reg !! id.
Proof.
  unfold delete_all. revert reg. induction keys as [|k keys IH]; intros reg; cbn [foldl].
  - case_decide; [set_solver | done].
  - rewrite IH. destruct (decide (id = k)) as [->|Hne].
    + rewrite lookup_delete_eq, (decide_True (P := k ∈ k :: keys)) by set_solver.
      by destruct (decide (k ∈ keys)).
    + rewrite lookup_delete_ne by done.
      destruct (decide (id ∈ keys)) as [Hin|Hout].
      * by rewrite decide_True by set_solver.
      * by rewrite decide_False by set_solver.
Qed.

Lemma elem_of_keys_to_remove now reg id :
  id ∈ keys_to_remove now reg ↔ ∃ j, reg !! id = Some j ∧ expired now j = true.
Proof.
  unfold keys_to_remove. rewrite list_elem_of_fmap. split.
  - intros [[k j] [-> Hin]]. apply list_elem_of_filter in Hin as [Hexp Hin].
    apply elem_of_map_to_list in Hin. by exists j.
  - intros (j & Hj & Hexp). exists (id, j). split; [done|].
    apply list_elem_of_filter. split; [done|]. by apply elem_of_map_to_list.
Qed.

Lemma sweep_lookup now reg id :
  (sweep now reg).1 !! id =
    match reg !! id with
    | Some j => if expired now j then None else Some j
    | None => None
    end.
Proof.
  unfold sweep; simpl. rewrite lookup_delete_all.
  destruct (reg !! id) as [j|] eqn:Hj.
  - destruct (expired now j) eqn:He.
    + rewrite decide_True; [done|]. apply elem_of_keys_to_remove. eauto.
    + rewrite decide_False; [done|]. intros (j' & Hj' & He')%elem_of_keys_to_remove.
      congruence.
  - by case_decide.
Qed.

End Reaper.

(** C5.  At a tick of the reaper that reads the time [now], a record of the
    registry is deleted when [now - created_at > 86400] and is kept, as it
    was, when [now - created_at <= 86400]; none of its other fields
    (progress, completion flag, error, results) is looked at. *)
Theorem reaper_removes_exactly_the_records_older_than_24h
    (now : Q) (reg : registry) (id : string) (j : job) :
  reg !! id = Some j →
  ((86400 < now - created_at j)%Q → (sweep now reg).1 !! id = None) ∧
  ((now - created_at j <= 86400)%Q → (sweep now reg).1 !! id = Some j).
Proof.
  intros Hj. rewrite sweep_lookup, Hj. split.
  - intros Hold%expired_spec. by rewrite Hold.
  - intros Hyoung. destruct (expired now j) eqn:He; [|done].
    apply expired_spec in He. by apply Qlt_not_le in He.
Qed.

Lemma reaper_removes_exactly_the_records_older_than_24h_witness :
  let reg : registry := {[ "a" := new_job 0; "b" := set_complete true (new_job 50000) ]} in
  (sweep 100000 reg).1 !! "a" = None ∧
  (sweep 100000 reg).1 !! "b" = Some (set_complete true (new_job 50000)).
Proof.
  intros reg. split.
  - apply (reaper_removes_exactly_the_records_older_than_24h 100000 reg "a" (new_job 0));
      [reflexivity | reflexivity].
  - apply (reaper_removes_exactly_the_records_older_than_24h 100000 reg "b"
             (set_complete true (new_job 50000))); [reflexivity | discriminate].
Defined.

(** ** The status endpoint *)

Lemma truthy_str_state (j : job) :
  truthy_str (error j) = true ↔ state_of j = ERROR.
Proof.
  unfold state_of. destruct (error j) as [[|a s]|]; simpl; split; try done;
    destruct (complete j); done.
Qed.

(** The error field is tested for truth: a record whose error text is the
    empty string is answered as a job in progress.  No [raise] of the
    repository produces such a text (see [process_audio_task_fails]). *)
Lemma error_without_text_reads_as_processing (reg : registry) (id : string) (j : job) :
  reg !! id = Some j → error j = Some "" → complete j = false →
  get_job_status reg id = inr (ProcessingSnapshot (progress j) (message j)).
Proof. intros Hj He Hc. unfold get_job_status. by rewrite Hj, He, Hc. Qed.

(** C4.  The status endpoint answers 404 exactly for the ids that are not
    in the registry; for the others the body is fixed by the state of the
    record: status, message and error for an errored job (one whose error
    text is set, that is non-empty), status and results for a completed
    one, status, progress and message for any other. *)
Theorem status_endpoint_shape (reg : registry) (id : string) :
  (get_job_status reg id = inl (HTTPException 404 "Job not found") ↔ reg !! id = None) ∧
  match reg !! id with
  | None => True
  | Some j =>
      ∃ body, get_job_status reg id = inr body ∧
        match state_of j with
        | ERROR =>
            body = ErrorSnapshot (message j) (default "" (error j)) ∧
            keys_of body = ["status"; "message"; "error"]
        | COMPLETE =>
            body = CompleteSnapshot (results j) ∧ keys_of body = ["status"; "results"]
        | RUNNING =>
            body = ProcessingSnapshot (progress j) (message j) ∧
            keys_of body = ["status"; "progress"; "message"]
        end
  end.
Proof.
  unfold get_job_status. destruct (reg !! id) as [j|] eqn:Hj.
  - split.
    + split; [|done]. by repeat case_match.
    + pose proof (truthy_str_state j) as Hs.
      destruct (truthy_str (error j)) eqn:Ht.
      * rewrite (proj1 Hs eq_refl). eauto.
      * assert (state_of j ≠ ERROR) as Hne by (intros He; apply Hs in He; done).
        unfold state_of in *. destruct (error j) as [[|a s]|]; try done;
          destruct (complete j); eauto.
  - done.
Qed.

(** ** Submission and its options *)

Lemma process_audio_empty env lower id file options p w :
  file_content file = [] →
  process_audio env lower id file options p w
  = (w, inl (HTTPException 400 "File is empty (0 bytes)")).
Proof. intros Hempty. unfold process_audio. by rewrite Hempty. Qed.

(** Only an exception of [magic] comes out of the validation. *)
Lemma validate_audio_file_returns path p :
  (∀ e, v_magic p ≠ MagicRaises e) → ∃ verdict, validate_audio_file path p = inr verdict.
Proof.
  intros Hmagic.
  unfold validate_audio_file, mime_check, ffprobe_check, librosa_check, and_then, ok, throw.
  destruct (negb (v_exists p)); [by eauto|]. destruct (v_size p =? 0)%Z; [by eauto|].
  destruct (negb (bool_decide _)); [by eauto|].
  destruct (v_magic p) as [|e|mime]; [|by destruct (Hmagic e)|];
    [destruct (v_guess p) as [mime|]|];
    destruct (v_ffprobe p) as [| |out]; destruct (v_librosa p) as [|e|d];
    repeat match goal with
           | |- context [if ?b then _ else _] => destruct b
           end;
    by eauto.
Qed.

(** A file that is not empty and on which [magic] does not fail is
    accepted, whatever the validation says of it. *)
Lemma process_audio_accepts env lower id file options p w :
  file_content file ≠ [] →
  (∀ e, v_magic p ≠ MagicRaises e) →
  process_audio env lower id file options p w =
    (add_task {| task_audio_path :=
                   named_temporary_file env ("." ++ file_extension lower file);
                 task_job_id := id; task_options := options |}
       (with_job_status (<[id := new_job (clock w)]> (job_status w)) w),
     inr {| job_id_of := id; status_field := "processing" |}).
Proof.
  intros Hfile Hmagic. unfold process_audio.
  destruct (file_content file) as [|b content]; [done|]. cbn [length Nat.eqb]. cbv zeta.
  destruct (validate_audio_file_returns
              (named_temporary_file env ("." ++ file_extension lower file)) p Hmagic)
    as [verdict Hv].
  unfold detect_file_type, try_validation, mbind, M_bind, lift. rewrite Hv.
  destruct (v_magic p) as [|e|mime]; [done | by destruct (Hmagic e) | done].
Qed.

(** An exception of [magic] leaves the handler as it is raised, before any
    record exists. *)
Lemma process_audio_magic env lower id file options p w e :
  file_content file ≠ [] →
  v_magic p = MagicRaises e →
  process_audio env lower id file options p w = (w, inl e).
Proof.
  intros Hfile Hmagic. unfold process_audio.
  destruct (file_content file) as [|b content]; [done|]. cbn [length Nat.eqb]. cbv zeta.
  unfold detect_file_type. by rewrite Hmagic.
Qed.

(** C3.  A submission whose file has length 0 is answered with the client
    error 400, detail "File is empty (0 bytes)", whatever the options are.
    The handler stops there: the registry and the queue of background tasks
    are as before, so the identifier drawn for the request never becomes a
    job and is not returned. *)
Theorem empty_file_is_rejected_before_any_job_exists `{Pydantic}
    (env : Environment) (lower : string → string) (id : string) (file : UploadFile)
    (options : form_field) (p : validation_probe) (w : world) :
  length (file_content file) = 0 →
  let (w', response) := post_process_audio env lower id file options p w in
  response = inl (HTTPException 400 "File is empty (0 bytes)") ∧
  client_error (HTTPException 400 "File is empty (0 bytes)") ∧
  job_status w' = job_status w ∧
  background_tasks w' = background_tasks w ∧
  w' = w.
Proof.
  intros Hlen%nil_length_inv. unfold post_process_audio.
  rewrite process_audio_empty by done. repeat split; simpl; lia.
Qed.

Lemma empty_file_is_rejected_before_any_job_exists_witness :
  post_process_audio env_at_hand (λ s, s) "6f1c" nothing NotSent on_disk (fresh_world 0 [])
  = (fresh_world 0 [], inl (HTTPException 400 "File is empty (0 bytes)")).
Proof.
  pose proof (empty_file_is_rejected_before_any_job_exists env_at_hand (λ s, s) "6f1c"
                nothing NotSent on_disk (fresh_world 0 []) eq_refl) as Hthm.
  destruct (post_process_audio env_at_hand (λ s, s) "6f1c" nothing NotSent on_disk
              (fresh_world 0 []))
    as [w' r].
  destruct Hthm as (Hr & _ & _ & _ & Hw). by rewrite Hr, Hw.
Defined.

(** C10.  When the options field is absent, empty, not JSON or rejected by
    the schema, [get_options] gives the defaults (5 points, "Bullets") and
    the handler does with the request exactly what it does with a request
    that sends no options: no failure comes from the options.  So a file
    that is not empty, and on which [magic] does not fail, is accepted: the
    record is created and the executor is scheduled with the defaults. *)
Theorem unusable_options_fall_back_to_defaults `{Pydantic} (options : form_field) :
  unusable options →
  get_options options = {| num_summary_points := 5; summary_style := "Bullets" |} ∧
  ∀ env lower id file p w,
    post_process_audio env lower id file options p w
    = post_process_audio env lower id file NotSent p w ∧
    (file_content file ≠ [] →
     (∀ e, v_magic p ≠ MagicRaises e) →
     ∃ w', post_process_audio env lower id file options p w
             = (w', inr {| job_id_of := id; status_field := "processing" |}) ∧
           job_status w' !! id = Some (new_job (clock w)) ∧
           ∃ path, background_tasks w' = (background_tasks w ++
                     [{| task_audio_path := path; task_job_id := id;
                         task_options := default_options |}])%list).
Proof.
  intros Hbad.
  assert (get_options options = default_options) as Hdef.
  { destruct Hbad as [| |e|v e Hv]; simpl; [done..|]. by rewrite Hv. }
  split; [done|]. intros env lower id file p w. unfold post_process_audio.
  rewrite Hdef. split; [done|]. intros Hfile Hmagic.
  rewrite process_audio_accepts by done. eexists. split; [done|]. split.
  - simpl. apply lookup_insert_eq.
  - eexists. reflexivity.
Qed.

Lemma unusable_options_fall_back_to_defaults_witness :
  get_options (Sent (inr (JObj [("num_summary_points", JStr "many")]))) = default_options ∧
  (post_process_audio env_at_hand (λ s, s) "6f1c" talk
     (Sent (inr (JObj [("num_summary_points", JStr "many")]))) on_disk (fresh_world 0 [])).2
  = inr {| job_id_of := "6f1c"; status_field := "processing" |}.
Proof.
  assert (unusable (Sent (inr (JObj [("num_summary_points", JStr "many")])))) as Hbad
    by (eapply unusable_rejected; reflexivity).
  pose proof (unusable_options_fall_back_to_defaults _ Hbad) as [Hdef Hrun].
  split; [exact Hdef|].
  destruct (Hrun env_at_hand (λ s, s) "6f1c" talk on_disk (fresh_world 0 []))
    as [_ Haccept].
  destruct Haccept as (w' & Hw' & _); [discriminate | discriminate |].
  by rewrite Hw'.
Defined.

(** C7, as the code has it.  The options are an integer and a string with
    the defaults 5 and "Bullets", each key taking its default when it is
    missing, whether the other is sent or not; the server checks neither
    the range 3..10 nor the two style names: whatever integer and string
    the object carries are the options the executor of an accepted
    submission is scheduled with. *)
Theorem options_are_taken_as_sent `{Pydantic} (items : list (string * json))
    (n : Z) (s : string) :
  lookup_key "num_summary_points" items = Some (JInt n) ∨
  lookup_key "num_summary_points" items = None ∧ n = 5%Z →
  lookup_key "summary_style" items = Some (JStr s) ∨
  lookup_key "summary_style" items = None ∧ s = "Bullets" →
  get_options NotSent = {| num_summary_points := 5; summary_style := "Bullets" |} ∧
  get_options (Sent (inr (JObj []))) = {| num_summary_points := 5; summary_style := "Bullets" |} ∧
  get_options (Sent (inr (JObj items))) = {| num_summary_points := n; summary_style := s |} ∧
  ∀ env lower id file p w,
    file_content file ≠ [] →
    (∀ e, v_magic p ≠ MagicRaises e) →
    ∃ path,
      background_tasks
        (post_process_audio env lower id file (Sent (inr (JObj items))) p w).1
      = (background_tasks w ++
          [{| task_audio_path := path; task_job_id := id;
              task_options := {| num_summary_points := n; summary_style := s |} |}])%list.
Proof.
  intros Hn Hs.
  assert (get_options (Sent (inr (JObj items)))
          = {| num_summary_points := n; summary_style := s |}) as Hopt.
  { simpl. unfold field.
    destruct Hn as [Hn|[Hn ->]], Hs as [Hs|[Hs ->]]; rewrite Hn, Hs;
      by rewrite ?validate_int_int, ?validate_str_str. }
  repeat split; [done..|]. intros env lower id file p w Hfile Hmagic.
  unfold post_process_audio.
  rewrite Hopt, process_audio_accepts by done. eexists. reflexivity.
Qed.

Lemma options_are_taken_as_sent_witness :
  get_options (Sent (inr (JObj [("num_summary_points", JInt 7)])))
  = {| num_summary_points := 7; summary_style := "Bullets" |} ∧
  get_options (Sent (inr (JObj [("summary_style", JStr "Paragraph");
                                ("num_summary_points", JInt 7)])))
  = {| num_summary_points := 7; summary_style := "Paragraph" |}.
Proof.
  split.
  - apply (options_are_taken_as_sent [("num_summary_points", JInt 7)] 7 "Bullets").
    + left. reflexivity.
    + right. split; reflexivity.
  - apply (options_are_taken_as_sent
             [("summary_style", JStr "Paragraph"); ("num_summary_points", JInt 7)]
             7 "Paragraph"); left; reflexivity.
Defined.

(** C7 as stated fails: 50 points in the style "Haiku" pass [get_options]
    unchanged and the executor is scheduled with them. *)
Lemma options_out_of_bounds_proceed :
  let sent := Sent (inr (JObj [("num_summary_points", JInt 50);
                               ("summary_style", JStr "Haiku")])) in
  ¬ (3 <= num_summary_points (get_options sent) <= 10)%Z ∧
  summary_style (get_options sent) ≠ "Bullets" ∧
  summary_style (get_options sent) ≠ "Paragraph" ∧
  task_options <$>
    background_tasks (post_process_audio env_at_hand (λ s, s) "6f1c" talk sent on_disk
                        (fresh_world 0 [])).1
  = [{| num_summary_points := 50; summary_style := "Haiku" |}].
Proof.
  cbv zeta. split; [simpl; lia|]. split; [done|]. split; [done|].
  vm_compute. reflexivity.
Qed.

(** ** Comprehensions that may raise *)

Section Comprehensions.
Context {A B : Type}.

Lemma for_each_inr (f : A → R B) l ys :
  for_each f l = inr ys → Forall2 (λ x y, f x = inr y) l ys.
Proof.
  revert ys. induction l as [|x l IH]; intros ys; simpl.
  - intros [= <-]. constructor.
  - unfold and_then, ok. destruct (f x) as [e|y] eqn:Hx; [done|].
    destruct (for_each f l) as [e|ys'] eqn:Hl; [done|]. intros [= <-].
    constructor; [done|]. by apply IH.
Qed.

Lemma for_each_length (f : A → R B) l ys :
  for_each f l = inr ys → length ys = length l.
Proof. intros H%for_each_inr. symmetry. by eapply Forall2_length. Qed.

Lemma for_each_elem_of (f : A → R B) l ys y :
  for_each f l = inr ys → y ∈ ys → ∃ x, x ∈ l ∧ f x = inr y.
Proof.
  intros H%for_each_inr. induction H as [|x y' l ys' Hxy _ IH].
  - by intros ?%elem_of_nil.
  - intros [->|Hin]%elem_of_cons.
    + exists x. split; [left | done].
    + destruct (IH Hin) as (x' & Hx' & Hfx'). exists x'. split; [by right | done].
Qed.

Lemma keep_if_elem_of (f : A → R bool) l ys x :
  keep_if f l = inr ys → x ∈ ys → x ∈ l ∧ f x = inr true.
Proof.
  revert ys. induction l as [|a l IH]; intros ys; simpl.
  - intros [= <-]. by intros ?%elem_of_nil.
  - unfold and_then, ok. destruct (f a) as [e|b] eqn:Ha; [done|].
    destruct (keep_if f l) as [e|ys'] eqn:Hl; [done|]. intros [= <-].
    destruct b.
    + intros [->|Hin]%elem_of_cons; [split; [left|done] |].
      destruct (IH ys' eq_refl Hin). split; [by right | done].
    + intros Hin. destruct (IH ys' eq_refl Hin). split; [by right | done].
Qed.

Lemma keep_if_none (f : A → R bool) l :
  Forall (λ x, f x = inr false) l → keep_if f l = inr [].
Proof.
  induction 1 as [|x l Hx _ IH]; simpl; [done|]. by rewrite Hx, IH.
Qed.

End Comprehensions.

(** ** The search *)

Section SearchFacts.

Lemma insert_asc_perm x l : insert_asc x l ≡ₚ x :: l.
Proof.
  induction l as [|y l IH]; simpl; [done|].
  destruct (Qle_bool x.2 y.2); [done|]. rewrite IH. apply Permutation_swap.
Qed.

Lemma sort_asc_perm l : foldr insert_asc [] l ≡ₚ l.
Proof.
  induction l as [|x l IH]; simpl; [done|]. by rewrite insert_asc_perm, IH.
Qed.

Lemma argsort_lookup (a : list Q) i : i ∈ argsort a → is_Some (a !! i).
Proof.
  unfold argsort. intros [[i' v] [-> Hin]]%list_elem_of_fmap.
  rewrite sort_asc_perm in Hin.
  apply list_elem_of_lookup in Hin as [k Hk].
  rewrite list_lookup_imap in Hk.
  destruct (a !! k) as [v'|] eqn:Hv; simplify_eq/=. eauto.
Qed.

Lemma slice_from_subseteq {A} (start : Z) (l : list A) : slice_from start l ⊆ l.
Proof.
  unfold slice_from. intros x. destruct (start <? 0)%Z;
    intros [i Hi]%list_elem_of_lookup; rewrite lookup_drop in Hi;
    by eapply list_elem_of_lookup_2.
Qed.

Lemma item_lookup {A} (l : list A) (i : nat) : item l (Z.of_nat i) = match l !! i with
                                                                   | Some x => inr x
                                                                   | None => inl (IndexError "list index out of range")
                                                                   end.
Proof.
  unfold item. rewrite (proj2 (Z.ltb_ge _ _)) by lia. by rewrite Nat2Z.id.
Qed.

Lemma positive_spec q : positive q = true ↔ (0 < q)%Q.
Proof.
  unfold positive. rewrite negb_true_iff, <- not_true_iff_false, Qle_bool_iff.
  split; [apply Qnot_le_lt | apply Qlt_not_le].
Qed.

Lemma search_body_scores v m sentences q n results :
  search_body v m sentences q n = inr results →
  Forall (λ r, (0 <= r.2)%Q) results ∧ results ≠ [].
Proof.
  unfold search_body, and_then, ok.
  destruct (transform v q) as [e|qv]; [done|].
  destruct (np_dot m qv) as [e|sim]; [done|].
  destruct (keep_if _ _) as [e|hits] eqn:Hhits; [done|].
  destruct (for_each _ hits) as [e|rs] eqn:Hrs; [done|].
  case_bool_decide as Hnil; intros [= <-].
  - split; [|done]. repeat constructor. done.
  - split; [|done]. apply Forall_forall. intros [sentence s] Hin.
    destruct (for_each_elem_of _ _ _ _ Hrs Hin) as (i & Hi & Hfi).
    destruct (keep_if_elem_of _ _ _ _ Hhits Hi) as [_ Hpos].
    cbv beta in Hfi, Hpos. unfold and_then, ok in Hfi, Hpos.
    rewrite !item_lookup in Hfi. rewrite item_lookup in Hpos.
    destruct (sentences !! i); [|done].
    destruct (sim !! i) as [s'|]; [|done]. simplify_eq/=.
    apply Qlt_le_weak, positive_spec. done.
Qed.

Lemma search_body_no_match v m sentences q n qv sim :
  transform v q = inr qv →
  np_dot m qv = inr sim →
  Forall (λ s, (s <= 0)%Q) sim →
  search_body v m sentences q n = inr [(lit "No matching results found.", 0%Q)].
Proof.
  intros Hq Hdot Hsim. unfold search_body, and_then, ok. rewrite Hq, Hdot.
  rewrite keep_if_none; [done|].
  apply Forall_forall. intros i Hi%elem_of_reverse%slice_from_subseteq.
  destruct (argsort_lookup _ _ Hi) as [s Hs].
  rewrite item_lookup, Hs. f_equal.
  apply not_true_is_false. intros Hpos%positive_spec.
  rewrite Forall_forall in Hsim.
  apply (Qlt_not_le _ _ Hpos), Hsim. by eapply list_elem_of_lookup_2.
Qed.

End SearchFacts.

(** C8, as the code has it.  [search] always returns a list, never an
    exception, every score in it is non-negative, and the list is never
    empty: when nothing is indexed, when the query is blank, when no
    sentence scores above zero or when the computation raises, the answer
    is a single sentinel sentence with the score 0. *)
Theorem search_returns_scored_sentences_or_one_sentinel
    (self : MeetingSearch) (query : pyobj) (n : Z) :
  search self query n ≠ [] ∧
  Forall (λ r, (0 <= r.2)%Q) (search self query n) ∧
  (∀ q, Forall (λ h, (0 <= score h)%Q) (search_transcript self q)) ∧
  (vectorizer self = None ∨ sentence_vectors self = None ∨ sentences self = [] →
   search self query n = [(lit "No transcript has been indexed yet.", 0%Q)]) ∧
  (∀ v m q qv sim,
     vectorizer self = Some v → sentence_vectors self = Some m → sentences self ≠ [] →
     query = PyStr q → strip q ≠ [] →
     transform v (strip q) = inr qv → np_dot m qv = inr sim →
     Forall (λ s, (s <= 0)%Q) sim →
     search self query n = [(lit "No matching results found.", 0%Q)]).
Proof.
  assert (∀ query n, search self query n ≠ [] ∧
                     Forall (λ r, (0 <= r.2)%Q) (search self query n)) as Hall.
  { clear. intros query n. unfold search.
    destruct (vectorizer self) as [v|], (sentence_vectors self) as [m|];
      try (split; [done | by repeat constructor]).
    case_bool_decide; [split; [done | by repeat constructor]|].
    destruct query as [|q]; [split; [done | by repeat constructor]|].
    case_bool_decide; [split; [done | by repeat constructor]|].
    destruct (search_body _ _ _ _ _) as [e|results] eqn:Hbody;
      [split; [done | by repeat constructor]|].
    destruct (search_body_scores _ _ _ _ _ _ Hbody). done. }
  split; [apply Hall|]. split; [apply Hall|]. split; [|split].
  - intros q. unfold search_transcript, search_meeting.
    apply Forall_fmap. eapply Forall_impl; [apply Hall|]. by intros [s sc].
  - unfold search. intros [Hv|[Hm|Hs]].
    + by rewrite Hv.
    + rewrite Hm. by destruct (vectorizer self).
    + rewrite Hs. by destruct (vectorizer self), (sentence_vectors self).
  - intros v m q qv sim Hv Hm Hs -> Hq Hqv Hdot Hsim. unfold search.
    rewrite Hv, Hm, bool_decide_eq_false_2, bool_decide_eq_false_2 by done.
    by erewrite search_body_no_match.
Qed.

Lemma search_returns_scored_sentences_or_one_sentinel_witness :
  search indexed (PyStr (lit "salary")) 5 = [(lit "No matching results found.", 0%Q)].
Proof.
  eapply (proj2 (proj2 (proj2 (proj2
            (search_returns_scored_sentences_or_one_sentinel indexed
               (PyStr (lit "salary")) 5))))); try reflexivity; try discriminate.
  repeat constructor; discriminate.
Defined.

(** C8 as stated fails: with nothing indexed the list returned is not
    empty, it holds the sentinel sentence; the same when nothing matches. *)
Lemma search_sentinel_is_an_item_of_the_list :
  search_transcript empty_index (lit "budget")
  = [{| sentence := lit "No transcript has been indexed yet."; score := 0 |}] ∧
  search_transcript empty_index (lit "budget") ≠ [] ∧
  search_transcript indexed (lit "salary")
  = [{| sentence := lit "No matching results found."; score := 0 |}].
Proof. split; [reflexivity|]. split; [discriminate | reflexivity]. Qed.

(** ** The executor *)

(** An update for an id that is not in the registry changes nothing and
    raises nothing. *)
Lemma update_status_absent id p m w :
  job_status w !! id = None → update_status id p m w = (w, inr ()).
Proof. intros Hid. unfold update_status. by rewrite Hid. Qed.

(** The direct writes of lines 156-161 and 168 raise for such an id. *)
Lemma setitem_absent id f w :
  job_status w !! id = None → setitem id f w = (w, inl (KeyError id)).
Proof. intros Hid. unfold setitem. by rewrite Hid. Qed.

Lemma update_status_present id p m w j :
  job_status w !! id = Some j →
  update_status id p m w =
    (print (JobLine id p m)
       (with_job_status (<[id := set_progress p m (clock w) j]> (job_status w)) w), inr ()).
Proof. intros Hid. unfold update_status. by rewrite Hid. Qed.

(** [check_audio_file] never stores a key named "error". *)
Lemma check_audio_file_has_no_error_key env path :
  check_audio_file env path !! "error" = None.
Proof. unfold check_audio_file. by destruct (probe_exists (probe env path)). Qed.

(** C1 fails on the code.  The job 6f1c is polled when the executor has
    written 25 and again while the transcription stage checks the file: the
    second answer, still "processing", shows 8.  The values written for the
    job go 5, 10, 15, 20, 25 (executor) and then 5, 8 (callback of
    [transcribe_audio]) before the handler writes 0 and stores the error. *)
Theorem progress_goes_back_when_transcription_starts :
  let w := (run_job [[]; []; [Poll "6f1c"]; [Poll "6f1c"]]).1 in
  responses w = [inr (ProcessingSnapshot 25 "Starting transcription...");
                 inr (ProcessingSnapshot 8 "Checking audio file format...")] ∧
  progress_written "6f1c" w = [5; 10; 15; 20; 25; 5; 8; 0]%Z ∧
  ¬ Sorted Z.le (progress_written "6f1c" w).
Proof.
  assert (progress_written "6f1c" (run_job [[]; []; [Poll "6f1c"]; [Poll "6f1c"]]).1
          = [5; 10; 15; 20; 25; 5; 8; 0]%Z) as Hp by (vm_compute; reflexivity).
  split; [vm_compute; reflexivity|]. split; [done|]. rewrite Hp.
  intros Hs. do 4 (apply Sorted_inv in Hs as [Hs _]).
  apply Sorted_inv in Hs as [_ Hhd]. inversion Hhd. lia.
Qed.

(** C2 fails on the code.  The job 6f1c is deleted by the reaper while its
    audio converts (the conversion takes 90000 seconds).  The updates that
    follow are silent, and the registry stays without the id, but the
    write of the error field at line 168 raises [KeyError] out of the
    executor. *)
Theorem write_of_the_error_field_raises_after_eviction :
  let run := run_job [[]; [Elapse 90000; ReaperTick]] in
  job_status run.1 = ∅ ∧
  progress_written "6f1c" run.1 = [5; 10; 15]%Z ∧
  run.2 = inl (KeyError "6f1c").
Proof. vm_compute. done. Qed.

(** ** Reasoning rules *)

Section Rules.
Context {A B : Type}.
Implicit Types (P : world → Prop) (E : pyexn → world → Prop).

Lemma triple_ret P (a : A) (Q : A → world → Prop) E :
  (∀ w, P w → Q a w) → triple P (mret a) Q E.
Proof. intros HQ w Hw. by apply HQ. Qed.

Lemma triple_raise P (e : pyexn) (Q : A → world → Prop) E :
  (∀ w, P w → E e w) → triple P (raise e) Q E.
Proof. intros HE w Hw. by apply HE. Qed.

Lemma triple_lift P (r : R A) (Q : A → world → Prop) E :
  (∀ w, P w → match r with inr a => Q a w | inl e => E e w end) →
  triple P (lift r) Q E.
Proof. intros H w Hw. unfold lift. specialize (H w Hw). by destruct r. Qed.

Lemma triple_bind P (m : M A) (f : A → M B) (Q : A → world → Prop)
    (Q' : B → world → Prop) E :
  triple P m Q E → (∀ a, triple (Q a) (f a) Q' E) → triple P (m ≫= f) Q' E.
Proof.
  intros Hm Hf w Hw. specialize (Hm w Hw). unfold mbind, M_bind.
  destruct (m w) as [w' [e|a]]; [done|]. by apply Hf.
Qed.

Lemma triple_try P (body : M A) (handler : pyexn → M A) (Q : A → world → Prop) E E' :
  triple P body Q E → (∀ e, triple (E e) (handler e) Q E') →
  triple P (try_except body handler) Q E'.
Proof.
  intros Hb Hh w Hw. specialize (Hb w Hw). unfold try_except.
  destruct (body w) as [w' [e|a]]; [by apply Hh | done].
Qed.

Lemma triple_weaken P P' (m : M A) (Q Q' : A → world → Prop) E E' :
  triple P' m Q' E' → (∀ w, P w → P' w) → (∀ a w, Q' a w → Q a w) →
  (∀ e w, E' e w → E e w) → triple P m Q E.
Proof.
  intros Hm HP HQ HE w Hw. specialize (Hm w (HP w Hw)).
  destruct (m w) as [w' [e|a]]; [by apply HE | by apply HQ].
Qed.

Lemma triple_false (m : M A) (Q : A → world → Prop) E : triple (λ _, False) m Q E.
Proof. by intros w []. Qed.

End Rules.

(** ** What the steps of the executor keep *)

Section Steps.
Context (id : string).

Lemma apply_event_lookup w ev j :
  job_status (apply_event w ev) !! id = Some j → job_status w !! id = Some j.
Proof.
  destruct ev as [dt| |id']; [done | | done].
  unfold apply_event, cleanup_tick.
  pose proof (sweep_lookup (clock w) (job_status w) id) as Hs.
  destruct (sweep (clock w) (job_status w)) as [left count].
  cbn [print with_job_status job_status fst] in *. rewrite Hs. destruct (job_status w !! id) as [j'|]; [|done]. by destruct (expired _ _).
Qed.

Lemma events_lookup w events j :
  job_status (foldl apply_event w events) !! id = Some j → job_status w !! id = Some j.
Proof.
  revert w. induction events as [|ev events IH]; intros w; simpl; [done|].
  intros H%IH. by eapply apply_event_lookup.
Qed.

Lemma unfinished_events w events : unfinished id w → unfinished id (foldl apply_event w events).
Proof. intros Hw j Hj%events_lookup. by apply Hw. Qed.

Lemma failed_events w events : failed id w → failed id (foldl apply_event w events).
Proof. intros Hw j Hj%events_lookup. by apply Hw. Qed.

Lemma await_keeps (P : world → Prop) :
  (∀ w p, P w → P (with_pending p w)) →
  (∀ w events, P w → P (foldl apply_event w events)) →
  triple P await (λ _, P) (λ _ _, False).
Proof.
  intros Hp Hev w Hw. unfold await. destruct (pending w) as [|events rest]; [done|].
  by apply Hev, Hp.
Qed.

Lemma await_unfinished : triple (unfinished id) await (λ _, unfinished id) (λ _ _, False).
Proof. apply await_keeps; [done | apply unfinished_events]. Qed.

Lemma update_status_unfinished id' p m :
  triple (unfinished id) (update_status id' p m) (λ _, unfinished id) (λ _ _, False).
Proof.
  intros w Hw. unfold update_status. destruct (job_status w !! id') as [j'|] eqn:Hj'; [|done].
  intros j. simpl. destruct (decide (id' = id)) as [->|Hne].
  - rewrite lookup_insert_eq. intros [= <-]. simpl. by apply Hw.
  - rewrite lookup_insert_ne by done. apply Hw.
Qed.

End Steps.

Lemma no_raise {A} P (m : M A) (Q : A → world → Prop) E :
  triple P m Q (λ _ _, False) → triple P m Q E.
Proof. intros Hm. eapply triple_weaken; [exact Hm | done..]. Qed.

Lemma check_audio_file_keys env path key :
  key ∈ ["error"; "duration"; "sample_rate"; "channels"] →
  check_audio_file env path !! key = None.
Proof.
  intros Hkey. unfold check_audio_file.
  repeat (apply elem_of_cons in Hkey as [->|Hkey];
          [by destruct (probe_exists (probe env path))|]).
  by apply elem_of_nil in Hkey.
Qed.

(** The executor under any assertion [I] that the updates of its job and
    the awaits keep. *)
Section Executor.
Context (env : Environment) (id : string) (I : world → Prop).
Hypothesis update_keeps :
  ∀ p m, triple I (update_status id p m) (λ _, I) (λ _ _, False).
Hypothesis await_keeps_it : triple I await (λ _, I) (λ _ _, False).

(** [transcribe_audio] never returns: once the file is known to exist and
    to have content, line 188 reads the key "error" of a report that has
    none.  Each exception it raises has a text. *)
Lemma transcribe_audio_always_raises path :
  triple I (transcribe_audio env path (Some (update_status id)))
         (λ _ _, False) (λ e w, I w ∧ str_exn e ≠ "").
Proof.
  unfold transcribe_audio.
  eapply triple_bind; [apply no_raise, update_keeps|]. intros [].
  destruct (negb (probe_exists (probe env path))).
  { eapply triple_bind; [apply no_raise, update_keeps|]. intros [].
    apply triple_raise. by split. }
  destruct (probe_size (probe env path) =? 0)%Z.
  { eapply triple_bind; [apply no_raise, update_keeps|]. intros [].
    apply triple_raise. by split. }
  eapply triple_bind; [apply no_raise, update_keeps|]. intros [].
  eapply triple_bind; [apply no_raise, await_keeps_it|]. intros [].
  unfold getitem. rewrite (check_audio_file_keys env path "error") by set_solver.
  eapply triple_bind; [|intros a; apply triple_false].
  apply triple_lift. intros w Hw. simpl. by split.
Qed.

(** The [try] block of the executor never ends normally: control always
    reaches the handler, with an exception that has a text. *)
Lemma process_audio_task_reaches_its_handler path options
    (Q : () → world → Prop) (E : pyexn → world → Prop) :
  (∀ e, triple (λ w, I w ∧ str_exn e ≠ "")
          (modify (print (JobErrorLine id (str_exn e)));;
           update_status id 0%Z ("Error: " ++ str_exn e);;
           setitem id (set_error (str_exn e)))
          Q E) →
  triple I (process_audio_task env path id options) Q E.
Proof.
  intros Hhandler. unfold process_audio_task.
  eapply (triple_try _ _ _ _ (λ e w, I w ∧ str_exn e ≠ "")); [|apply Hhandler].
  eapply triple_bind; [apply no_raise, update_keeps|]. intros [].
  eapply triple_bind; [apply no_raise, await_keeps_it|]. intros [].
  unfold dict_get, dict_get_default. rewrite !check_audio_file_keys by set_solver.
  cbn [default truthy format_2f].
  eapply triple_bind.
  { eapply (triple_bind _ _ _ (λ _, I)).
    - apply triple_lift. by intros w Hw.
    - intros duration. apply no_raise, update_keeps. }
  intros []. eapply (triple_bind _ _ _ (λ _, I)).
  { eapply (triple_try _ _ _ _ (λ _, I)).
    - eapply triple_bind; [apply no_raise, update_keeps|]. intros [].
      eapply triple_bind; [apply no_raise, await_keeps_it|]. intros [].
      eapply (triple_bind _ _ _ (λ _, I)).
      { apply triple_lift. intros w Hw.
        by destruct (convert_audio_to_wav env path). }
      intros wav. eapply triple_bind; [apply no_raise, update_keeps|].
      intros []. by apply triple_ret.
    - intros e. eapply triple_bind; [apply no_raise, update_keeps|]. intros [].
      apply triple_raise. by split. }
  intros wav.
  eapply triple_bind; [apply no_raise, update_keeps|]. intros [].
  eapply triple_bind; [apply no_raise, await_keeps_it|]. intros [].
  eapply triple_bind; [|intros a; apply triple_false].
  apply transcribe_audio_always_raises.
Qed.

End Executor.

Section Outcome.
Context (env : Environment) (id : string).

Lemma executor_handler e :
  triple (raised_with_text id e)
    (modify (print (JobErrorLine id (str_exn e)));;
     update_status id 0%Z ("Error: " ++ str_exn e);;
     setitem id (set_error (str_exn e)))
    (λ _, failed id) (λ _, failed id).
Proof.
  intros w [Hw He]. unfold mbind, M_bind, modify, update_status, setitem. simpl.
  destruct (job_status w !! id) as [j0|] eqn:Hj0; simpl.
  - rewrite lookup_insert_eq. intros j. simpl. rewrite lookup_insert_eq.
    intros [= <-]. destruct (Hw j0 Hj0) as [Hres Hcomp]. simpl. eauto 6.
  - rewrite Hj0. intros j. simpl. by rewrite Hj0.
Qed.

(** Every run ends with the job failed (or gone). *)
Lemma process_audio_task_fails path options :
  triple (unfinished id) (process_audio_task env path id options)
         (λ _, failed id) (λ _, failed id).
Proof.
  apply process_audio_task_reaches_its_handler.
  - intros p m. apply update_status_unfinished.
  - apply await_unfinished.
  - apply executor_handler.
Qed.

(** A run for an id that is not in the registry leaves it out and ends
    with the [KeyError] of line 168. *)
Lemma process_audio_task_raises_for_an_absent_job path options :
  triple (λ w, job_status w !! id = None) (process_audio_task env path id options)
         (λ _ _, False)
         (λ e w, e = KeyError id ∧ job_status w !! id = None).
Proof.
  apply process_audio_task_reaches_its_handler.
  - intros p m w Hw. by rewrite update_status_absent.
  - apply await_keeps; [done|]. intros w events Hw.
    destruct (job_status (foldl apply_event w events) !! id) as [j|] eqn:Hj; [|done].
    apply events_lookup in Hj. congruence.
  - intros e w [Hw _]. unfold mbind, M_bind, modify.
    rewrite update_status_absent, setitem_absent by done. done.
Qed.

End Outcome.

(** X14.  No run of the executor marks its job complete or stores
    results: the transcription stage always raises. *)
Lemma executor_never_completes_a_job env path id options w j :
  unfinished id w →
  job_status (process_audio_task env path id options w).1 !! id = Some j →
  complete j = false ∧ results j = None.
Proof.
  intros Hw. pose proof (process_audio_task_fails env id path options w Hw) as Hrun.
  destruct (process_audio_task env path id options w) as [w' [e|[]]]; cbn [fst];
    intros Hj; destruct (Hrun j Hj) as (? & ? & _); done.
Qed.

(** C6.  Start the executor on a job that has no results yet (as every
    submitted job), in any surroundings, and let anything happen
    afterwards.  A stage raises, and from then on the status endpoint
    answers for this job with the error body alone, whose fields are the
    status, the line "Error: ..." and the error text; the record never
    gets results, so no transcript, summary or sentiment can be read.  Once
    the reaper has removed the record the answer is 404. *)
Theorem failed_job_shows_only_its_error
    (env : Environment) (path id : string) (options : SummaryOptions)
    (w : world) (later : list env_event) :
  unfinished id w →
  let w' := foldl apply_event (process_audio_task env path id options w).1 later in
  match job_status w' !! id with
  | Some j =>
      results j = None ∧ complete j = false ∧
      ∃ msg, msg ≠ "" ∧ error j = Some msg ∧
             get_job_status (job_status w') id = inr (ErrorSnapshot ("Error: " ++ msg) msg)
  | None => get_job_status (job_status w') id = inl (HTTPException 404 "Job not found")
  end.
Proof.
  intros Hw w'.
  assert (failed id w') as Hfailed.
  { apply failed_events.
    pose proof (process_audio_task_fails env id path options w Hw) as Hrun.
    destruct (process_audio_task env path id options w) as [w1 [e|[]]]; exact Hrun. }
  unfold get_job_status. destruct (job_status w' !! id) as [j|] eqn:Hj; [|done].
  destruct (Hfailed j Hj) as (Hres & Hcomp & msg & Herr & Hmsg & Hline).
  split; [done|]. split; [done|]. exists msg. split; [done|]. split; [done|].
  rewrite Herr. simpl. apply String.eqb_neq in Hmsg. by rewrite Hmsg, Hline.
Qed.

Lemma failed_job_shows_only_its_error_witness :
  get_job_status (job_status (run_job [[]; []; []; [Elapse 60; ReaperTick]]).1) "6f1c"
  = inr (ErrorSnapshot "Error: 'error'" "'error'").
Proof.
  assert (unfinished "6f1c" (submitted_world [[]; []; []; [Elapse 60; ReaperTick]]))
    as Hfresh by (intros j; vm_compute; intros [= <-]; done).
  pose proof (failed_job_shows_only_its_error env_at_hand "/tmp/tmpk2v7.mp3" "6f1c"
                default_options (submitted_world [[]; []; []; [Elapse 60; ReaperTick]])
                [] Hfresh) as Hthm.
  assert (job_status (run_job [[]; []; []; [Elapse 60; ReaperTick]]).1 !! "6f1c"
          = Some {| progress := 0; message := "Error: 'error'"; created_at := 0;
                    updated_at := 60; complete := false; error := Some "'error'";
                    results := None |}) as Hj by (vm_compute; reflexivity).
  change (let w' := (run_job [[]; []; []; [Elapse 60; ReaperTick]]).1 in
          match job_status w' !! "6f1c" with
          | Some j =>
              results j = None ∧ complete j = false ∧
              ∃ msg, msg ≠ "" ∧ error j = Some msg ∧
                     get_job_status (job_status w') "6f1c"
                     = inr (ErrorSnapshot ("Error: " ++ msg) msg)
          | None => get_job_status (job_status w') "6f1c"
                    = inl (HTTPException 404 "Job not found")
          end) in Hthm.
  cbv zeta in Hthm. rewrite Hj in Hthm.
  destruct Hthm as (_ & _ & msg & _ & [= <-] & Hget). exact Hget.
Defined.

(** ** Bullets in a summary *)

Local Close Scope string_scope.

Section Bullets.
Implicit Types (s x rest sep : pystr) (l : list pystr) (c : N).

Lemma bullets_app s x : bullets (s ++ x) = bullets s + bullets x.
Proof. unfold bullets. by rewrite filter_app, length_app. Qed.

Lemma bullets_cons c s :
  bullets (c :: s) = (if decide (c = bullet) then 1 else 0) + bullets s.
Proof. unfold bullets. rewrite filter_cons. by destruct (decide (c = bullet)). Qed.

Lemma bullet_free_bullets s : bullet_free s ↔ bullets s = 0.
Proof.
  unfold bullet_free. induction s as [|c s IH].
  - split; [done | intros _; apply not_elem_of_nil].
  - rewrite bullets_cons, not_elem_of_cons, IH.
    destruct (decide (c = bullet)); split; try lia; naive_solver.
Qed.

Lemma bullet_free_app s x : bullet_free (s ++ x) ↔ bullet_free s ∧ bullet_free x.
Proof. rewrite !bullet_free_bullets, bullets_app. lia. Qed.

Lemma bullet_free_subseteq s x : s ⊆ x → bullet_free x → bullet_free s.
Proof. unfold bullet_free. set_solver. Qed.

Lemma bullet_free_decide s :
  forallb (λ c, negb (c =? bullet)%N) s = true → bullet_free s.
Proof.
  unfold bullet_free. induction s as [|c s IH]; simpl.
  - intros _. apply not_elem_of_nil.
  - intros [Hc Hs]%andb_true_iff. apply not_elem_of_cons. split; [|by apply IH].
    intros <-. by rewrite N.eqb_refl in Hc.
Qed.

Lemma bullets_join l sep :
  Forall bullet_free l → bullets (join sep l) = (length l - 1) * bullets sep.
Proof.
  induction 1 as [|p l Hp Hl IH]; [done|].
  destruct l as [|q l].
  - simpl. by apply bullet_free_bullets.
  - change (join sep (p :: q :: l)) with (p ++ sep ++ join sep (q :: l))%list.
    rewrite !bullets_app, IH, (proj1 (bullet_free_bullets p) Hp). simpl. lia.
Qed.

(** A rendered list of bullet-free points shows one bullet per point, and
    one for the empty list. *)
Lemma bullets_render l :
  Forall bullet_free l → bullets (render l) = max 1 (length l).
Proof.
  intros Hl. unfold render. rewrite bullets_app, bullets_join by done.
  change (bullets marker) with 1. change (bullets (newline :: marker)) with 1.
  destruct l; simpl; lia.
Qed.

Lemma replace_marker_free x rest :
  bullet_free x →
  replace_from marker [] 0 (x ++ rest) = x ++ replace_from marker [] 0 rest.
Proof.
  induction x as [|c x IH]; [done|]. intros [Hc Hx]%not_elem_of_cons.
  change ((c :: x) ++ rest)%list with (c :: (x ++ rest))%list. cbn [replace_from].
  unfold starts_with. rewrite bool_decide_eq_false_2.
  - cbn [app]. f_equal. by apply IH.
  - simpl. intros [= -> _]. done.
Qed.

Lemma replace_marker_marker rest :
  replace_from marker [] 0 (marker ++ rest) = replace_from marker [] 0 rest.
Proof. reflexivity. Qed.

Lemma replace_marker_join l :
  Forall bullet_free l →
  replace_from marker [] 0 (join (newline :: marker) l) = join [newline] l.
Proof.
  induction 1 as [|p l Hp Hl IH]; [done|].
  destruct l as [|q l].
  - simpl. rewrite <- (app_nil_r p) at 1. rewrite replace_marker_free by done.
    apply app_nil_r.
  - change (join (newline :: marker) (p :: q :: l))
      with (p ++ [newline] ++ marker ++ join (newline :: marker) (q :: l))%list.
    rewrite replace_marker_free by done.
    rewrite (replace_marker_free [newline]) by (apply bullet_free_decide; reflexivity).
    by rewrite replace_marker_marker, IH.
Qed.

Lemma replace_marker_render l :
  Forall bullet_free l → replace marker [] (render l) = join [newline] l.
Proof.
  intros Hl. unfold replace, render. by rewrite replace_marker_marker, replace_marker_join.
Qed.

Lemma bullets_replace_newline s : bullets (replace [newline] [space] s) = bullets s.
Proof.
  unfold replace. induction s as [|c s IH]; [done|]. cbn [replace_from].
  unfold starts_with. case_bool_decide as Hc.
  - simpl in Hc. injection Hc as ->. cbn [app length Nat.sub]. rewrite !bullets_cons, IH.
    by rewrite !decide_False by done.
  - by rewrite !bullets_cons, IH.
Qed.

(** The paragraph made from such a list shows no bullet. *)
Lemma bullets_paragraph l :
  Forall bullet_free l → bullets (to_paragraph (render l)) = 0.
Proof.
  intros Hl. unfold to_paragraph.
  rewrite bullets_replace_newline, replace_marker_render, bullets_join by done.
  change (bullets [newline]) with 0. lia.
Qed.

End Bullets.

(** ** The paths of the summarizer *)

Section Paths.
Context (nltk : Nltk).
Implicit Types (t s : pystr) (l pool sentences : list pystr) (n : Z).

Lemma item_elem_of {A} (xs : list A) (i : Z) (x : A) : item xs i = inr x → x ∈ xs.
Proof.
  unfold item. destruct (i <? 0)%Z; [done|].
  destruct (xs !! Z.to_nat i) as [y|] eqn:Hy; [|done].
  intros [= <-]. by eapply list_elem_of_lookup_2.
Qed.

Lemma for_each_item {I} (index : I → Z) sentences (idx : list I) l :
  for_each (λ i, item sentences (index i)) idx = inr l →
  length l = length idx ∧ l ⊆ sentences.
Proof.
  intros Hl. split; [by eapply for_each_length|].
  intros x Hx. destruct (for_each_elem_of _ _ _ _ Hl Hx) as (i & _ & Hi).
  by eapply item_elem_of.
Qed.

Lemma slice_to_length {A} n (xs : list A) :
  (0 <= n)%Z → length (slice_to n xs) ≤ Z.to_nat n.
Proof.
  intros Hn. unfold slice_to. rewrite (proj2 (Z.ltb_ge _ _)) by done.
  rewrite length_take. lia.
Qed.

Lemma nlargest_length n scores : length (nlargest n scores) ≤ Z.to_nat n.
Proof.
  unfold nlargest. destruct (n <=? 0)%Z; simpl; [lia|].
  rewrite length_take. lia.
Qed.

Lemma range_length start stop :
  length (range start stop 1) = Z.to_nat (stop - start).
Proof.
  unfold range. rewrite length_fmap, length_seq, Z.div_1_r. f_equal. lia.
Qed.

Lemma length_omap_le {A B} (f : A → option B) (xs : list A) :
  length (omap f xs) ≤ length xs.
Proof.
  induction xs as [|x xs IH]; [done|]. simpl.
  destruct (f x); simpl; [apply le_n_S | apply Nat.le_le_succ_r]; exact IH.
Qed.

(** The [try] block gives at most [n] of the sentences of NLTK. *)
Lemma summarize_main_renders t n sentences s :
  (1 <= n)%Z →
  sent_tokenize nltk t = inr sentences →
  summarize_main nltk t n = inr s →
  renders sentences (Z.to_nat n) s.
Proof.
  intros Hn Htok. unfold summarize_main, and_then, ok. rewrite Htok. cbv zeta.
  destruct (Z.of_nat (length sentences) <=? n)%Z eqn:Hshort.
  { intros [= <-]. exists sentences. apply Z.leb_le in Hshort.
    split; [done|]. split; [lia | done]. }
  generalize (foldl (count_words nltk (or_else (stopwords_words nltk) fallback_stop_words))
                    ∅ sentences).
  intros word_frequencies. case_bool_decide as Hwf.
  { destruct (floordiv _ _) as [e|q]; [done|].
    destruct (for_each _ _) as [e|l] eqn:Hl; [done|]. intros [= <-].
    apply (for_each_item id) in Hl as [Hlen Hsub].
    exists l. split; [done|]. split; [|done].
    rewrite Hlen. apply slice_to_length. lia. }
  match goal with |- context [bool_decide (?scores = [])] => generalize scores end.
  intros sentence_scores. case_bool_decide as Hscores.
  { destruct (if (1 <? _)%Z then _ else _) as [e|rest] eqn:Hrest; [done|].
    destruct (for_each _ _) as [e|l] eqn:Hl; [done|]. intros [= <-].
    apply (for_each_item id) in Hl as [Hlen Hsub].
    exists l. split; [done|]. split; [|done]. rewrite Hlen. simpl.
    assert (length rest ≤ Z.to_nat (n - 1)) as Hr; [|lia].
    destruct (1 <? _)%Z.
    - destruct (keep_if _ _) as [e|kept]; [done|]. injection Hrest as <-.
      apply slice_to_length. lia.
    - injection Hrest as <-. simpl. lia. }
  destruct (for_each _ _) as [e|l] eqn:Hl; [done|]. intros [= <-].
  apply (for_each_item Z.of_nat) in Hl as [Hlen Hsub].
  exists l. split; [done|]. split; [|done].
  rewrite Hlen, merge_sort_Permutation. apply nlargest_length.
Qed.

Lemma split_from_subseteq sep skip cur t piece :
  piece ∈ split_from sep skip cur t → piece ⊆ cur ++ t.
Proof.
  revert skip cur. induction t as [|c t IH]; intros skip cur; simpl.
  - intros ->%list_elem_of_singleton x. rewrite elem_of_reverse. set_solver.
  - destruct skip as [|k].
    + destruct (starts_with sep (c :: t)).
      * intros [->|Hin]%elem_of_cons.
        -- intros x. rewrite elem_of_reverse. set_solver.
        -- apply IH in Hin. set_solver.
      * intros Hin%IH. set_solver.
    + intros Hin%IH. set_solver.
Qed.

Lemma split_bullet_free sep t : bullet_free t → Forall bullet_free (split sep t).
Proof.
  intros Ht. apply Forall_forall. intros piece Hin%split_from_subseteq.
  by eapply bullet_free_subseteq.
Qed.

Lemma lstrip_subseteq t : lstrip t ⊆ t.
Proof.
  induction t as [|c t IH]; simpl; [done|]. destruct (is_space c); set_solver.
Qed.

Lemma strip_bullet_free t : bullet_free t → bullet_free (strip t).
Proof.
  apply bullet_free_subseteq. unfold strip. intros x.
  rewrite elem_of_reverse. intros Hx%lstrip_subseteq.
  rewrite elem_of_reverse in Hx. by apply lstrip_subseteq.
Qed.

(** The first handler gives at most [max 3 n] of the pieces between the
    full stops. *)
Lemma summarize_fallback_renders t n s :
  (3 <= n)%Z →
  summarize_fallback t n = inr s →
  renders (split [full_stop; space] t) (Z.to_nat n) s.
Proof.
  intros Hn. unfold summarize_fallback, and_then, ok. cbv zeta.
  generalize (split [full_stop; space] t). intros sentences.
  destruct (Z.of_nat (length sentences) <=? 3)%Z eqn:Hshort.
  { intros [= <-]. exists sentences. apply Z.leb_le in Hshort.
    split; [done|]. split; [lia | done]. }
  destruct (item sentences 0) as [e|first] eqn:Hfirst; [done|].
  destruct (floordiv _ _) as [e|q]; [done|]. intros [= <-].
  eexists. split; [done|]. split.
  - simpl. rewrite length_app.
    pose proof (length_omap_le
                  (λ i, let idx := (i * Z.max 1 q)%Z in
                        if (idx <? Z.of_nat (length sentences))%Z
                        then sentences !! Z.to_nat idx else None)
                  (range 1 (n - 1) 1)) as Hmid.
    rewrite range_length in Hmid.
    assert (length (if (1 <? Z.of_nat (length sentences))%Z
                    then option_list (last sentences) else []) ≤ 1) as Htail.
    { destruct (1 <? _)%Z; [|simpl; lia]. destruct (last sentences); simpl; lia. }
    cbv zeta in Hmid. lia.
  - intros x [->|[Hx|Hx]%elem_of_app]%elem_of_cons.
    + by eapply item_elem_of.
    + apply list_elem_of_omap in Hx as (i & _ & Hi). cbv zeta in Hi.
      destruct (_ <? _)%Z; [|done]. by eapply list_elem_of_lookup_2.
    + destruct (1 <? _)%Z; [|by apply elem_of_nil in Hx].
      destruct (last sentences) as [y|] eqn:Hy; [|by apply elem_of_nil in Hx].
      apply list_elem_of_singleton in Hx as ->. by apply last_Some_elem_of.
Qed.

(** Whatever path is taken, a plain transcript is summarized as the
    rendering of at most [n] bullet-free points, when [n] is 3 or more. *)
Lemma summarize_text_renders transcript n :
  (3 <= n)%Z → plain nltk transcript →
  ∃ l, summarize_text nltk transcript n = render l ∧
       length l ≤ Z.to_nat n ∧ Forall bullet_free l.
Proof.
  intros Hn Hplain. destruct transcript as [|t]; simpl.
  { exists [lit "Invalid transcript format"]. split; [done|]. split; [cbn [length]; lia|].
    repeat constructor. by apply bullet_free_decide. }
  destruct Hplain as [Ht Htok]. apply strip_bullet_free in Ht.
  case_bool_decide as Hempty.
  { exists [lit "No transcript content to summarize"]. split; [done|].
    split; [cbn [length]; lia|]. repeat constructor. by apply bullet_free_decide. }
  destruct (summarize_main nltk (strip t) n) as [e|s] eqn:Hmain; simpl.
  - destruct (summarize_fallback (strip t) n) as [e'|s] eqn:Hfall; simpl.
    + unfold summarize_ultra. destruct (500 <? length (strip t)).
      * exists [take 500 (strip t) ++ lit "..."]. split; [done|]. split; [cbn [length]; lia|].
        repeat constructor. apply bullet_free_app. split.
        -- eapply bullet_free_subseteq; [|done]. intros x (i & Hi & _)%elem_of_take.
           by eapply list_elem_of_lookup_2.
        -- by apply bullet_free_decide.
      * exists [strip t]. split; [done|]. split; [cbn [length]; lia|]. by repeat constructor.
    + destruct (summarize_fallback_renders _ _ _ Hn Hfall) as (l & -> & Hlen & Hsub).
      exists l. split; [done|]. split; [done|].
      apply Forall_forall. intros x Hx%Hsub.
      pose proof (split_bullet_free [full_stop; space] _ Ht) as Hpieces.
      rewrite Forall_forall in Hpieces. by apply Hpieces.
  - unfold summarize_main, and_then in Hmain.
    destruct (sent_tokenize nltk (strip t)) as [e|sentences] eqn:Hs; [done|].
    assert (summarize_main nltk (strip t) n = inr s) as Hmain'.
    { unfold summarize_main, and_then. by rewrite Hs. }
    assert (1 <= n)%Z as Hn1 by lia.
    destruct (summarize_main_renders _ _ _ _ Hn1 Hs Hmain') as (l & -> & Hlen & Hsub).
    exists l. split; [done|]. split; [done|].
    apply Forall_forall. intros x Hx%Hsub.
    pose proof (Htok _ eq_refl) as Hsent. rewrite Forall_forall in Hsent. by apply Hsent.
Qed.

End Paths.

(** X26.  When at least 3 points are asked for (the range 3..10 of the
    interface included) and neither the transcript nor the sentences NLTK
    cuts it into carry the bullet character, the summary of lines 135-146
    ([summarize_text], then the style) shows at most that many bullets in
    any style other than "Paragraph", on every path of the summarizer
    (NLTK answering or raising, both fallbacks), and no bullet at all in
    the style "Paragraph". *)
Theorem summary_respects_the_style_from_three_points_on
    (nltk : Nltk) (n : Z) (style : string) (transcript : pyobj) :
  (3 <= n)%Z →
  plain nltk transcript →
  (style ≠ "Paragraph"%string →
   bullets (styled_summary nltk n style transcript) ≤ Z.to_nat n) ∧
  (style = "Paragraph"%string →
   bullets (styled_summary nltk n style transcript) = 0).
Proof.
  intros Hn Hplain.
  destruct (summarize_text_renders nltk transcript n Hn Hplain) as (l & Hl & Hlen & Hfree).
  unfold styled_summary. rewrite Hl. split.
  - intros Hstyle%String.eqb_neq. rewrite Hstyle, bullets_render by done. lia.
  - intros ->. cbn [String.eqb Ascii.eqb Bool.eqb]. by apply bullets_paragraph.
Qed.

Lemma summary_respects_the_style_from_three_points_on_witness :
  bullets (styled_summary nltk_at_hand 3 "Bullets"
             (PyStr (lit "Budget approved. Hiring paused. Launch in May. Thanks. Bye")))
  ≤ Z.to_nat 3.
Proof.
  assert (plain nltk_at_hand
            (PyStr (lit "Budget approved. Hiring paused. Launch in May. Thanks. Bye")))
    as Hplain.
  { split.
    - apply bullet_free_decide. vm_compute. reflexivity.
    - intros sentences Hs. unfold nltk_at_hand, sent_tokenize, ok in Hs.
      injection Hs as <-.
      apply split_bullet_free, strip_bullet_free, bullet_free_decide.
      vm_compute. reflexivity. }
  assert (3 <= 3)%Z as Hn by lia.
  pose proof (summary_respects_the_style_from_three_points_on nltk_at_hand 3 "Bullets"
                _ Hn Hplain) as [Hbullets _].
  apply Hbullets. intros Hstyle. inversion Hstyle.
Defined.

(** Both conditions are needed.  Two points are asked for and NLTK has no
    data: the first handler returns the three pieces of the transcript.
    And a bullet standing in the transcript itself stays in the
    paragraph. *)
Lemma summary_can_exceed_the_points_asked_for :
  bullets (styled_summary nltk_without_data 2 "Bullets"
             (PyStr (lit "Budget approved. Hiring paused. Launch in May"))) = 3 ∧
  ¬ (3 ≤ Z.to_nat 2) ∧
  bullets (styled_summary nltk_at_hand 5 "Paragraph"
             (PyStr (bullet :: lit "agenda"))) = 1.
Proof.
  split; [vm_compute; reflexivity|]. split; [simpl; lia | vm_compute; reflexivity].
Qed.

(** ** The progress written by a run *)

Section Progress.
Context (env : Environment) (id : string).
Implicit Types (l : list Z) (w : world).

Lemma progress_written_print w line :
  progress_written id (print line w) =
    progress_written id w ++
      match line with
      | JobLine id' p _ => if String.eqb id' id then [p] else []
      | _ => []
      end.
Proof.
  unfold progress_written, print. cbn [stdout]. rewrite omap_app. f_equal.
  destruct line as [id' p m| |]; simpl; [|done..]. by destruct (String.eqb id' id).
Qed.

Lemma progress_written_with_job_status w m :
  progress_written id (with_job_status m w) = progress_written id w.
Proof. reflexivity. Qed.

Lemma update_status_wrote l p m :
  triple (wrote id l) (update_status id p m) (λ _, wrote id (l ++ [p])) (λ _ _, False).
Proof.
  intros w (Hpending & [j Hj] & Hl). unfold update_status. rewrite Hj.
  split; [done|]. split.
  - cbn [print with_job_status job_status]. rewrite lookup_insert_eq. eauto.
  - rewrite progress_written_print, String.eqb_refl. by f_equal.
Qed.

Lemma await_wrote l : triple (wrote id l) await (λ _, wrote id l) (λ _ _, False).
Proof. intros w (Hpending & Hj & Hl). unfold await. by rewrite Hpending. Qed.

Lemma update_status_wrote_first l id' p m :
  triple (wrote_first id l) (update_status id' p m) (λ _, wrote_first id l) (λ _ _, False).
Proof.
  intros w [rest Hrest]. unfold update_status.
  destruct (job_status w !! id') as [j|]; [|by exists rest].
  eexists. rewrite progress_written_print, progress_written_with_job_status, Hrest.
  by rewrite <- app_assoc.
Qed.

Lemma apply_event_wrote_first l w ev :
  wrote_first id l w → wrote_first id l (apply_event w ev).
Proof.
  intros [rest Hrest]. destruct ev as [dt| |id']; [by exists rest | | by exists rest].
  unfold apply_event, cleanup_tick. destruct (sweep _ _) as [left count].
  exists rest. rewrite progress_written_print, app_nil_r. done.
Qed.

Lemma await_wrote_first l :
  triple (wrote_first id l) await (λ _, wrote_first id l) (λ _ _, False).
Proof.
  apply await_keeps; [done|]. intros w events. revert w.
  induction events as [|ev events IH]; intros w Hw; simpl; [done|].
  by apply IH, apply_event_wrote_first.
Qed.

(** The transcription stage writes 5 first, and raises in the end. *)
Lemma transcribe_audio_writes_5_first l path :
  triple (wrote id l) (transcribe_audio env path (Some (update_status id)))
         (λ _ _, False) (λ _, wrote_first id (l ++ [5%Z])).
Proof.
  pose proof (update_status_wrote_first (l ++ [5%Z]) id) as Hcb.
  unfold transcribe_audio.
  eapply (triple_bind _ _ _ (λ _, wrote_first id (l ++ [5%Z]))).
  { apply no_raise. eapply triple_weaken; [apply update_status_wrote | done | | done].
    intros _ w (_ & _ & Hw). exists []. by rewrite app_nil_r. }
  intros [].
  destruct (negb (probe_exists (probe env path))).
  { eapply triple_bind; [apply no_raise, Hcb|]. intros [].
    by apply triple_raise. }
  destruct (probe_size (probe env path) =? 0)%Z.
  { eapply triple_bind; [apply no_raise, Hcb|]. intros [].
    by apply triple_raise. }
  eapply triple_bind; [apply no_raise, Hcb|]. intros [].
  eapply triple_bind; [apply no_raise, await_wrote_first|]. intros [].
  unfold getitem. rewrite (check_audio_file_keys env path "error") by set_solver.
  eapply triple_bind; [|intros a; apply triple_false].
  apply triple_lift. by intros w Hw.
Qed.

Lemma process_audio_task_writes path options l wav :
  convert_audio_to_wav env path = inr wav →
  triple (wrote id l) (process_audio_task env path id options)
         (λ _, wrote_first id (l ++ [5; 10; 15; 20; 25; 5]%Z))
         (λ _, wrote_first id (l ++ [5; 10; 15; 20; 25; 5]%Z)).
Proof.
  intros Hwav. unfold process_audio_task.
  eapply (triple_try _ _ _ _ (λ _, wrote_first id (l ++ [5; 10; 15; 20; 25; 5]%Z))).
  - eapply triple_bind; [apply no_raise, update_status_wrote|]. intros [].
    eapply triple_bind; [apply no_raise, await_wrote|]. intros [].
    unfold dict_get, dict_get_default. rewrite !check_audio_file_keys by set_solver.
    cbn [default truthy format_2f].
    eapply (triple_bind _ _ _ (λ _, wrote id ((l ++ [5%Z]) ++ [10%Z]))).
    { eapply (triple_bind _ _ _ (λ _, wrote id (l ++ [5%Z]))).
      - apply triple_lift. by intros w Hw.
      - intros duration. apply no_raise, update_status_wrote. }
    intros []. eapply (triple_bind _ _ _ (λ _, wrote id ((((l ++ [5]) ++ [10]) ++ [15]) ++ [20])%Z)).
    { eapply (triple_try _ _ _ _ (λ _ _, False)); [|intros e; apply triple_false].
      eapply triple_bind; [apply update_status_wrote|]. intros [].
      eapply triple_bind; [apply await_wrote|]. intros [].
      rewrite Hwav.
      eapply (triple_bind _ _ _ (λ _, wrote id (((l ++ [5]) ++ [10]) ++ [15])%Z)).
      { apply triple_lift. by intros w Hw. }
      intros wav'. eapply triple_bind; [apply update_status_wrote|]. intros [].
      by apply triple_ret. }
    intros wav'.
    eapply triple_bind; [apply no_raise, update_status_wrote|]. intros [].
    eapply triple_bind; [apply no_raise, await_wrote|]. intros [].
    eapply triple_bind; [|intros a; apply triple_false].
    eapply triple_weaken; [apply transcribe_audio_writes_5_first | done | done |].
    intros e w Hw. by rewrite <- !app_assoc in Hw.
  - intros e.
    eapply (triple_bind _ _ _ (λ _, wrote_first id (l ++ [5; 10; 15; 20; 25; 5]%Z))).
    { intros w [rest Hrest]. exists rest. by rewrite progress_written_print, app_nil_r. }
    intros [].
    eapply (triple_bind _ _ _ (λ _, wrote_first id (l ++ [5; 10; 15; 20; 25; 5]%Z))).
    { eapply triple_weaken; [apply update_status_wrote_first | done..]. }
    intros []. intros w [rest Hrest]. unfold setitem.
    destruct (job_status w !! id); by exists rest.
Qed.

End Progress.

(** X15.  Every job whose audio converts sees its progress go from 25
    back to 5: whatever the files and services are, a run that nothing
    interrupts writes 5, 10, 15, 20, 25 and then 5 again. *)
Lemma progress_goes_back_for_every_converted_job env path id options w wav :
  pending w = [] →
  is_Some (job_status w !! id) →
  convert_audio_to_wav env path = inr wav →
  ∃ rest, progress_written id (process_audio_task env path id options w).1
          = progress_written id w ++ [5; 10; 15; 20; 25; 5]%Z ++ rest.
Proof.
  intros Hpending Hj Hwav.
  pose proof (process_audio_task_writes env id path options (progress_written id w) wav
                Hwav w (conj Hpending (conj Hj eq_refl))) as Hrun.
  destruct (process_audio_task env path id options w) as [w' [e|[]]];
    destruct Hrun as [rest Hrest]; exists rest; cbn [fst]; by rewrite Hrest, <- app_assoc.
Qed.

(** X16.  Every run for an id the registry does not hold, whatever
    happens around it, re-creates no record and ends with [KeyError]. *)
Lemma executor_raises_for_every_absent_job env path id options w :
  job_status w !! id = None →
  (process_audio_task env path id options w).2 = inl (KeyError id) ∧
  job_status (process_audio_task env path id options w).1 !! id = None.
Proof.
  intros Hw.
  pose proof (process_audio_task_raises_for_an_absent_job env id path options w Hw) as Hrun.
  destruct (process_audio_task env path id options w) as [w' [e|[]]]; [|done].
  destruct Hrun as [-> Hw']. done.
Qed.

(** * Further properties *)

Local Open Scope string_scope.

(** ** The suffix of the temporary file *)

Lemma split_char_not_nil c s : split_char c s ≠ [].
Proof.
  destruct s as [|a s]; simpl; [done|].
  destruct (Ascii.eqb a c); [done|]. by destruct (split_char c s).
Qed.

Lemma split_char_without c s : has_char c s = false → split_char c s = [s].
Proof.
  induction s as [|a s IH]; simpl; [done|].
  intros [Ha Hs]%orb_false_iff. rewrite Ha, IH by done. done.
Qed.

Lemma split_char_app c stem ext :
  split_char c (stem ++ String c ext) = (split_char c stem ++ split_char c ext)%list.
Proof.
  induction stem as [|a stem IH]; simpl.
  - by rewrite Ascii.eqb_refl.
  - rewrite IH. destruct (Ascii.eqb a c); [done|].
    pose proof (split_char_not_nil c stem). by destruct (split_char c stem).
Qed.

Lemma extension_of_content_type_known content_type :
  extension_of_content_type content_type ∈ ["mp3"; "wav"; "aac"; "ogg"; "flac"].
Proof.
  unfold extension_of_content_type. destruct content_type as [ct|]; [|set_solver].
  destruct (_ && _); [|set_solver]. repeat case_bool_decide; set_solver.
Qed.

(** X1.  Whatever the file name and the content type of an upload are, the
    suffix the handler gives to the temporary file is one of the eight it
    knows, so that, with the dot in front, it is also one of the extensions
    [validate_audio_file] accepts. *)
Theorem suffix_is_always_a_known_audio_suffix
    (lower : string → string) (file : UploadFile) :
  file_extension lower file ∈ audio_suffixes ∧
  "." ++ file_extension lower file ∈ audio_extensions.
Proof.
  assert (file_extension lower file ∈ audio_suffixes) as Hin.
  { unfold file_extension.
    pose proof (extension_of_content_type_known (content_type file)) as Hct.
    assert (extension_of_content_type (content_type file) ∈ audio_suffixes) as Hct'.
    { unfold audio_suffixes. set_solver. }
    destruct (extension_of_name lower (filename file)) as [e|]; [|done].
    destruct (negb (e =? ""))%string; [|done]. simpl. by case_bool_decide. }
  split; [done|]. unfold audio_suffixes, audio_extensions in *.
  repeat (apply elem_of_cons in Hin as [->|Hin]; [set_solver|]).
  by apply elem_of_nil in Hin.
Qed.

(** X2.  A file name that ends in a dot and a suffix without dots decides
    alone when that suffix, in lower case, is a known one: the content type
    is not looked at. *)
Theorem suffix_of_the_file_name_wins
    (lower : string → string) (stem ext : string) (file : UploadFile) :
  filename file = Some (stem ++ String "." ext) →
  has_char "." ext = false →
  lower ext ∈ audio_suffixes →
  file_extension lower file = lower ext.
Proof.
  intros Hname Hext Hknown. unfold file_extension, extension_of_name. rewrite Hname.
  assert (stem ++ String "." ext ≠ "") as Hne by (by destruct stem).
  apply String.eqb_neq in Hne. rewrite Hne.
  rewrite split_char_app, (split_char_without _ ext) by done.
  assert ((1 <? length (split_char "." stem ++ [ext]))%nat = true) as ->.
  { pose proof (split_char_not_nil "." stem) as Hstem. rewrite length_app.
    apply Nat.ltb_lt. destruct (split_char "." stem); [done | simpl; lia]. }
  unfold last_part. rewrite last_snoc. cbn [default mbind option_bind id]. unfold id.
  rewrite bool_decide_eq_true_2 by done.
  assert (lower ext ≠ "") as Hl.
  { intros Heq. rewrite Heq in Hknown. unfold audio_suffixes in Hknown. set_solver. }
  apply String.eqb_neq in Hl. by rewrite Hl.
Qed.

Lemma suffix_of_the_file_name_wins_witness :
  file_extension (λ s, s)
    {| filename := Some "board.meeting.wav"; content_type := Some "audio/mpeg";
       file_content := [] |} = "wav".
Proof.
  apply (suffix_of_the_file_name_wins (λ s, s) "board.meeting" "wav").
  - reflexivity.
  - reflexivity.
  - unfold audio_suffixes. set_solver.
Defined.

(** ** Validation of an audio file *)

Lemma not_positive_spec d : Qle_bool d 0 = false ↔ (0 < d)%Q.
Proof.
  rewrite <- not_true_iff_false, Qle_bool_iff.
  split; [apply Qnot_le_lt | apply Qlt_not_le].
Qed.

(** The two last checks, case by case. *)
Ltac later_checks p :=
  destruct (v_ffprobe p) as [| |?out]; simpl;
  try destruct (contains _ _); simpl;
  destruct (v_librosa p) as [|?e|?d]; simpl;
  try match goal with
      | |- context [Qle_bool ?d 0] =>
          let Hd := fresh "Hd" in
          destruct (Qle_bool d 0) eqn:Hd;
          [assert (¬ (0 < d)%Q) by (apply Qle_not_lt, Qle_bool_iff; done)
          |apply not_positive_spec in Hd]
      end;
  naive_solver.

(** X3.  [validate_audio_file] answers "valid" exactly when the file
    exists, is not empty, has one of the eight extensions, has an audio or
    video MIME type (the one of [magic], or without [magic] the guessed
    one, if there is one), shows an audio stream to [ffprobe] when
    [ffprobe] ran, and has a positive duration for [librosa] when [librosa]
    is installed; a missing [ffprobe] or [librosa] never counts against
    the file. *)
Theorem valid_verdict_means_every_check_passed (path : string) (p : validation_probe) :
  validate_audio_file path p = inr (true, "File appears to be a valid audio file") ↔
  v_exists p = true ∧ v_size p ≠ 0%Z ∧ v_extension p ∈ audio_extensions ∧
  match v_magic p with
  | MagicSays mime_type => is_media mime_type = true
  | MagicRaises _ => False
  | MagicMissing =>
      match v_guess p with
      | Some mime_type => mime_type = "" ∨ is_media mime_type = true
      | None => True
      end
  end ∧
  match v_ffprobe p with
  | FfprobePrints stdout => contains "codec_type=audio" stdout = true
  | _ => True
  end ∧
  match v_librosa p with
  | LibrosaDuration duration => (0 < duration)%Q
  | LibrosaRaises _ => False
  | LibrosaMissing => True
  end.
Proof.
  unfold validate_audio_file, mime_check, ffprobe_check, librosa_check, and_then, ok, throw.
  destruct (v_exists p); simpl; [|split; [done | by intros [? _]]].
  destruct (v_size p =? 0)%Z eqn:Hsize; [split; [done | intros (_ & Hs & _)]|].
  { by apply Z.eqb_eq in Hsize. }
  apply Z.eqb_neq in Hsize. case_bool_decide as Hext; simpl;
    [|split; [done | by intros (_ & _ & ? & _)]].
  destruct (v_magic p) as [|e|mime]; simpl.
  - destruct (v_guess p) as [mime|]; simpl; [|later_checks p].
    destruct (mime =? "") eqn:Hm; simpl.
    + apply String.eqb_eq in Hm. later_checks p.
    + apply String.eqb_neq in Hm. destruct (is_media mime); simpl; later_checks p.
  - split; [done | naive_solver].
  - destruct (is_media mime); simpl; later_checks p.
Qed.

(** ** The ranking of the search results *)

Section Ranking.

Lemma keep_if_sublist {A} (f : A → R bool) l ys :
  keep_if f l = inr ys → ys `sublist_of` l.
Proof.
  revert ys. induction l as [|a l IH]; intros ys; simpl.
  - by intros [= <-].
  - unfold and_then, ok. destruct (f a) as [e|b]; [done|].
    destruct (keep_if f l) as [e|ys'] eqn:Hl; [done|]. intros [= <-].
    destruct b; [apply sublist_skip | apply sublist_cons]; by apply IH.
Qed.

Lemma sorted_sublist {A} (R : relation A) l k :
  k `sublist_of` l → StronglySorted R l → StronglySorted R k.
Proof.
  induction 1 as [|x k l Hkl IH|x k l Hkl IH]; [done|..];
    intros [Hall Hl]%StronglySorted_cons.
  - apply StronglySorted_cons. split; [|by apply IH].
    apply Forall_forall. intros y Hy. rewrite Forall_forall in Hall.
    apply Hall. by eapply elem_of_sublist.
  - by apply IH.
Qed.

Lemma sorted_reverse {A} (R : relation A) l :
  StronglySorted R l → StronglySorted (flip R) (reverse l).
Proof.
  induction 1 as [|x l Hl IH Hall]; [rewrite reverse_nil; constructor|].
  rewrite reverse_cons. apply StronglySorted_app_2; [|done|repeat constructor].
  intros y x' Hy ->%list_elem_of_singleton. rewrite elem_of_reverse in Hy.
  rewrite Forall_forall in Hall. unfold flip. by apply Hall.
Qed.

Lemma sorted_Forall {A} (R : relation A) (P : A → Prop) l :
  StronglySorted R l → Forall P l → StronglySorted (λ x y, R x y ∧ P x ∧ P y) l.
Proof.
  induction 1 as [|x l Hl IH Hall]; [constructor|].
  intros [Hx Hl']%Forall_cons. constructor; [by apply IH|].
  rewrite Forall_forall in *. naive_solver.
Qed.

Lemma sorted_Forall2 {A B} (R : relation A) (S : relation B) (T : A → B → Prop) l k :
  (∀ x x' y y', T x y → T x' y' → R x x' → S y y') →
  Forall2 T l k → StronglySorted R l → StronglySorted S k.
Proof.
  intros HT. induction 1 as [|x y l k Hxy Hlk IH]; [constructor|].
  intros [Hall Hl]%StronglySorted_cons. constructor; [by apply IH|].
  apply Forall_forall. intros y' [i Hy']%list_elem_of_lookup.
  destruct (Forall2_lookup_r _ _ _ _ _ Hlk Hy') as (x' & Hx' & Hxy').
  rewrite Forall_forall in Hall. eapply HT; [done..|].
  apply Hall. by eapply list_elem_of_lookup_2.
Qed.

Lemma insert_asc_sorted x l :
  StronglySorted by_value l → StronglySorted by_value (insert_asc x l).
Proof.
  induction 1 as [|y l Hl IH Hall]; simpl; [repeat constructor|].
  destruct (Qle_bool x.2 y.2) eqn:Hxy.
  - apply Qle_bool_iff in Hxy. constructor; [by constructor|].
    constructor; [done|]. eapply Forall_impl; [done|].
    intros z Hz. unfold by_value in *. by eapply Qle_trans.
  - constructor; [done|]. rewrite insert_asc_perm. constructor; [|done].
    unfold by_value. apply Qlt_le_weak, Qnot_le_lt.
    intros Hle%Qle_bool_iff. congruence.
Qed.

Lemma sort_asc_sorted l : StronglySorted by_value (foldr insert_asc [] l).
Proof. induction l; simpl; [constructor | by apply insert_asc_sorted]. Qed.

Lemma argsort_sorted a : StronglySorted (not_above a) (argsort a).
Proof.
  unfold argsort.
  eapply (StronglySorted_fmap fst
            (λ p q, by_value p q ∧ a !! p.1 = Some p.2 ∧ a !! q.1 = Some q.2)).
  - intros [i x] [j y] (Hle & Hi & Hj). by exists x, y.
  - apply sorted_Forall; [apply sort_asc_sorted|].
    rewrite sort_asc_perm. apply Forall_forall.
    intros [i x] [k Hk]%list_elem_of_lookup. rewrite list_lookup_imap in Hk.
    destruct (a !! k) as [v|] eqn:Hv; simplify_eq/=. done.
Qed.

(** What the [try] block of [search] returns, when it returns: the
    sentinel of an empty selection, or the sentences at some of the last
    [n] positions of [argsort], from the last one backwards. *)
Lemma search_body_hits v m sentences q n results :
  search_body v m sentences q n = inr results →
  results = [(lit "No matching results found.", 0%Q)] ∨
  ∃ sim hits,
    hits `sublist_of` reverse (slice_from (- n) (argsort sim)) ∧
    Forall2 (λ (i : nat) r, sentences !! i = Some r.1 ∧ sim !! i = Some r.2 ∧ (0 < r.2)%Q)
            hits results.
Proof.
  unfold search_body, and_then, ok.
  destruct (transform v q) as [e|qv]; [done|].
  destruct (np_dot m qv) as [e|sim]; [done|].
  destruct (keep_if _ _) as [e|hits] eqn:Hhits; [done|].
  destruct (for_each _ hits) as [e|rs] eqn:Hrs; [done|].
  case_bool_decide as Hnil; intros [= <-]; [by left | right].
  exists sim, hits. split; [by eapply keep_if_sublist|].
  apply for_each_inr in Hrs. apply Forall2_same_length_lookup.
  split; [by eapply Forall2_length|]. intros k i [sentence s] Hi Hr.
  pose proof (Forall2_lookup_lr _ _ _ _ _ _ Hrs Hi Hr) as Hfi.
  apply list_elem_of_lookup_2 in Hi.
  destruct (keep_if_elem_of _ _ _ _ Hhits Hi) as [_ Hpos].
  cbv beta in Hfi, Hpos. unfold and_then, ok in Hfi, Hpos.
  rewrite !item_lookup in Hfi. rewrite item_lookup in Hpos.
  destruct (sentences !! i); [|done].
  destruct (sim !! i) as [s'|]; [|done]. simplify_eq/=.
  split; [done|]. split; [done|]. by apply positive_spec.
Qed.

Lemma slice_from_last_length {A} (n : Z) (l : list A) :
  (1 <= n)%Z → length (slice_from (- n) l) <= Z.to_nat n.
Proof.
  intros Hn. unfold slice_from. rewrite (proj2 (Z.ltb_lt _ _)) by lia.
  rewrite length_drop, Z.opp_involutive. lia.
Qed.

Lemma slice_from_sorted {A} (R : relation A) (start : Z) (l : list A) :
  StronglySorted R l → StronglySorted R (slice_from start l).
Proof.
  intros Hl. unfold slice_from.
  destruct (start <? 0)%Z; (eapply sorted_sublist; [apply sublist_drop | done]).
Qed.

End Ranking.

(** X4.  Asked for [n] results, with [n] at least 1, [search] returns at
    most [n] items, the sentinels included. *)
Theorem search_returns_at_most_the_number_asked_for
    (self : MeetingSearch) (query : pyobj) (n : Z) :
  (1 <= n)%Z → length (search self query n) <= Z.to_nat n.
Proof.
  intros Hn. assert (1 <= Z.to_nat n) as Hone by lia.
  unfold search.
  destruct (vectorizer self) as [v|], (sentence_vectors self) as [m|]; try done.
  case_bool_decide; [done|]. destruct query as [|q]; [done|].
  case_bool_decide; [done|].
  destruct (search_body _ _ _ _ _) as [e|results] eqn:Hbody; [done|].
  apply search_body_hits in Hbody as [->|(sim & hits & Hsub & Hall)]; [done|].
  rewrite <- (Forall2_length _ _ _ Hall).
  etrans; [by apply sublist_length|].
  rewrite length_reverse. by apply slice_from_last_length.
Qed.

Lemma search_returns_at_most_the_number_asked_for_witness :
  (1 <= 1)%Z ∧ length (search indexed (PyStr (lit "budget")) 1) <= 1.
Proof.
  split; [lia|].
  apply (search_returns_at_most_the_number_asked_for indexed (PyStr (lit "budget")) 1). lia.
Defined.

(** X5.  The list [search] returns is ranked: no item has a higher score
    than an item before it. *)
Theorem search_ranks_by_falling_score (self : MeetingSearch) (query : pyobj) (n : Z) :
  StronglySorted (λ r r', (r'.2 <= r.2)%Q) (search self query n).
Proof.
  unfold search.
  destruct (vectorizer self) as [v|], (sentence_vectors self) as [m|];
    try (by repeat constructor).
  case_bool_decide; [by repeat constructor|].
  destruct query as [|q]; [by repeat constructor|].
  case_bool_decide; [by repeat constructor|].
  destruct (search_body _ _ _ _ _) as [e|results] eqn:Hbody; [by repeat constructor|].
  apply search_body_hits in Hbody as [->|(sim & hits & Hsub & Hall)];
    [by repeat constructor|].
  eapply (sorted_Forall2 (flip (not_above sim))); [|done|].
  - intros i j r r' (_ & Hi & _) (_ & Hj & _) (x & y & Hx & Hy & Hle).
    by simplify_eq.
  - eapply sorted_sublist; [done|].
    apply sorted_reverse, slice_from_sorted, argsort_sorted.
Qed.

(** X6.  An item with a positive score is never a sentinel: its sentence
    is one of the indexed sentences, and then every item of the answer has
    a positive score. *)
Theorem a_positive_score_marks_an_indexed_sentence
    (self : MeetingSearch) (query : pyobj) (n : Z) (r : pystr * Q) :
  r ∈ search self query n → (0 < r.2)%Q →
  r.1 ∈ sentences self ∧ Forall (λ r', (0 < r'.2)%Q) (search self query n).
Proof.
  unfold search.
  assert (∀ s, r ∈ [(lit s, 0%Q)] → (0 < r.2)%Q → False) as Hno.
  { intros s ->%list_elem_of_singleton. apply Qlt_irrefl. }
  destruct (vectorizer self) as [v|], (sentence_vectors self) as [m|];
    try (intros ??; by edestruct Hno).
  case_bool_decide; [intros ??; by edestruct Hno|].
  destruct query as [|q]; [intros ??; by edestruct Hno|].
  case_bool_decide; [intros ??; by edestruct Hno|].
  destruct (search_body _ _ _ _ _) as [e|results] eqn:Hbody;
    [intros ??; by edestruct Hno|].
  apply search_body_hits in Hbody as [->|(sim & hits & Hsub & Hall)];
    [intros ??; by edestruct Hno|].
  intros [k Hk]%list_elem_of_lookup _.
  destruct (Forall2_lookup_r _ _ _ _ _ Hall Hk) as (i & Hi & Hs & _ & _).
  split; [by eapply list_elem_of_lookup_2|].
  apply Forall_forall. intros r' [k' Hk']%list_elem_of_lookup.
  by destruct (Forall2_lookup_r _ _ _ _ _ Hall Hk') as (i' & _ & _ & _ & ?).
Qed.

Lemma a_positive_score_marks_an_indexed_sentence_witness :
  lit "We agreed on the budget" ∈ sentences indexed.
Proof.
  apply (a_positive_score_marks_an_indexed_sentence indexed (PyStr (lit "budget")) 5
           (lit "We agreed on the budget", 1%Q)).
  - vm_compute. left.
  - reflexivity.
Defined.

(** ** Indexing and searching *)

Lemma index_transcript_true sk self transcript self' :
  index_transcript sk self transcript = (self', true) →
  is_Some (vectorizer self') ∧ is_Some (sentence_vectors self') ∧ sentences self' ≠ [].
Proof.
  unfold index_transcript. destruct transcript as [|text]; [done|].
  case_bool_decide; [done|]. cbv zeta. case_bool_decide as Hs; [done|].
  destruct (fit_transform sk _) as [e|[v m]]; [done|]. intros [= <-]. simpl. eauto.
Qed.

(** X7.  Once [index_transcript] has returned [True], no search says that
    nothing is indexed, whatever the query and the number of results asked
    for. *)
Theorem an_indexed_transcript_is_searchable
    (sk : Sklearn) (self self' : MeetingSearch) (transcript query : pyobj) (n : Z) :
  index_transcript sk self transcript = (self', true) →
  search self' query n ≠ [(lit "No transcript has been indexed yet.", 0%Q)].
Proof.
  intros ([v Hv] & [m Hm] & Hs)%index_transcript_true.
  unfold search. rewrite Hv, Hm, bool_decide_eq_false_2 by done.
  destruct query as [|q]; [discriminate|]. case_bool_decide; [discriminate|].
  destruct (search_body _ _ _ _ _) as [e|results] eqn:Hbody.
  { simpl. discriminate. }
  apply search_body_hits in Hbody as [->|(sim & hits & _ & Hall)]; [discriminate|].
  intros ->. apply Forall2_length in Hall as Hlen.
  destruct hits as [|i [|??]]; try done.
  apply Forall2_cons_1 in Hall as [(_ & _ & Hpos) _]. by apply Qlt_irrefl in Hpos.
Qed.

Lemma an_indexed_transcript_is_searchable_witness :
  search indexed (PyStr (lit "budget")) 5
  ≠ [(lit "No transcript has been indexed yet.", 0%Q)].
Proof.
  apply (an_indexed_transcript_is_searchable sklearn_at_hand empty_index indexed
           (PyStr (lit "We agreed on the budget. Thanks."))).
  vm_compute. reflexivity.
Defined.

(** X8.  When [index_transcript] returns [False] for a transcript that is
    not blank (no sentence found, or scikit-learn raised), the index is
    unusable afterwards, even if an earlier transcript was indexed: every
    search says that nothing is indexed. *)
Theorem a_failed_indexing_leaves_nothing_to_search
    (sk : Sklearn) (self self' : MeetingSearch) (text : pystr) (query : pyobj) (n : Z) :
  strip text ≠ [] →
  index_transcript sk self (PyStr text) = (self', false) →
  search self' query n = [(lit "No transcript has been indexed yet.", 0%Q)].
Proof.
  intros Htext. unfold index_transcript.
  rewrite bool_decide_eq_false_2 by done. cbv zeta.
  case_bool_decide as Hs.
  - intros [= <-]. unfold search. simpl.
    by destruct (vectorizer self), (sentence_vectors self).
  - destruct (fit_transform sk _) as [e|[v m]]; [|done]. by intros [= <-].
Qed.

Lemma a_failed_indexing_leaves_nothing_to_search_witness :
  search (index_transcript sklearn_empty_vocabulary indexed (PyStr (lit "So it is."))).1
         (PyStr (lit "budget")) 5
  = [(lit "No transcript has been indexed yet.", 0%Q)].
Proof.
  apply (a_failed_indexing_leaves_nothing_to_search sklearn_empty_vocabulary indexed _
           (lit "So it is.")).
  - vm_compute. discriminate.
  - vm_compute. reflexivity.
Defined.

(** ** The context of a search result *)

Section Window.
Context {A B : Type}.

Lemma for_each_app (f : A → R B) l1 l2 :
  for_each f (l1 ++ l2) =
  and_then (for_each f l1) (λ a, and_then (for_each f l2) (λ b, ok (a ++ b)%list)).
Proof.
  induction l1 as [|x l1 IH]; simpl.
  - by destruct (for_each f l2).
  - destruct (f x) as [e|y]; simpl; [done|]. rewrite IH.
    destruct (for_each f l1) as [e|a]; simpl; [done|].
    by destruct (for_each f l2).
Qed.

Lemma for_each_ext (f g : A → R B) l :
  (∀ x, x ∈ l → f x = g x) → for_each f l = for_each g l.
Proof.
  induction l as [|x l IH]; intros Hfg; simpl; [done|].
  rewrite (Hfg x) by left. rewrite IH; [done|]. intros y Hy. apply Hfg. by right.
Qed.

End Window.

Lemma range_seq (start stop : Z) :
  (0 <= start)%Z →
  range start stop 1 = Z.of_nat <$> seq (Z.to_nat start) (Z.to_nat (stop - start)).
Proof.
  intros Hs. unfold range. rewrite Z.div_1_r.
  replace (stop - start + 1 - 1)%Z with (stop - start)%Z by lia.
  generalize (Z.to_nat (stop - start)). intros n.
  rewrite <- (Nat.add_0_r (Z.to_nat start)) at 1.
  rewrite <- fmap_add_seq, <- list_fmap_compose.
  apply list_fmap_ext. intros _ k _. simpl. lia.
Qed.

Lemma for_each_item_seq {A} (xs : list A) (a n : nat) :
  a + n <= length xs →
  for_each (item xs) (Z.of_nat <$> seq a n) = inr (take n (drop a xs)).
Proof.
  revert a. induction n as [|n IH]; intros a Hlen; simpl; [done|].
  rewrite item_lookup. destruct (lookup_lt_is_Some_2 xs a) as [x Hx]; [lia|].
  rewrite Hx. simpl. rewrite IH by lia. simpl.
  by rewrite (drop_S _ _ _ Hx).
Qed.

Lemma take_min_length {A} (xs : list A) (n : nat) :
  take (n `min` length xs) xs = take n xs.
Proof.
  destruct (decide (n <= length xs)) as [Hle|Hgt].
  - by rewrite Nat.min_l.
  - rewrite Nat.min_r, !take_ge by lia. done.
Qed.

(** X9.  For a valid index and a window that is not negative,
    [get_context] returns the sentences at most [window] places before the
    one asked for, that sentence between two pairs of stars, and the
    sentences at most [window] places after it, in the order of the
    transcript and separated by single blanks. *)
Theorem get_context_shows_the_window
    (self : MeetingSearch) (i window : Z) (s : pystr) :
  (0 <= i)%Z → (0 <= window)%Z →
  sentences self !! Z.to_nat i = Some s →
  get_context self (Some i) window =
    inr (join [space]
           (drop (Z.to_nat (i - window)) (take (Z.to_nat i) (sentences self))
            ++ highlight s
            :: take (Z.to_nat window) (drop (S (Z.to_nat i)) (sentences self)))%list).
Proof.
  intros Hi Hw Hs. unfold get_context.
  pose proof (lookup_lt_Some _ _ _ Hs) as Hlt.
  rewrite bool_decide_eq_false_2 by (intros Hnil; by rewrite Hnil in Hs).
  rewrite (proj2 (Z.ltb_ge _ _)), (proj2 (Z.leb_gt _ _)) by lia.
  cbn [orb]. cbv zeta.
  set (len := Z.of_nat (length (sentences self))).
  set (start := Z.max 0 (i - window)). set (stop := Z.min len (i + window + 1)).
  rewrite range_seq by lia.
  replace (Z.to_nat (stop - start))
    with ((Z.to_nat i - Z.to_nat start) + (1 + Z.to_nat (stop - i - 1)))%nat by lia.
  rewrite seq_app, fmap_app, for_each_app.
  replace (Z.to_nat start + (Z.to_nat i - Z.to_nat start))%nat with (Z.to_nat i) by lia.
  rewrite (for_each_ext _ (item (sentences self))).
  2:{ intros k (k' & -> & Hk'%elem_of_seq)%list_elem_of_fmap.
      rewrite (proj2 (Z.eqb_neq _ _)) by lia. done. }
  rewrite for_each_item_seq by lia. cbn [and_then].
  cbn [seq fmap list_fmap Nat.add for_each]. rewrite Z2Nat.id, Z.eqb_refl by lia.
  replace i with (Z.of_nat (Z.to_nat i)) at 1 by lia.
  rewrite item_lookup, Hs. cbn [and_then ok].
  rewrite (for_each_ext _ (item (sentences self))).
  2:{ intros k (k' & -> & Hk'%elem_of_seq)%list_elem_of_fmap.
      rewrite (proj2 (Z.eqb_neq _ _)) by lia. done. }
  rewrite for_each_item_seq by lia. cbn [and_then ok].
  do 3 f_equal.
  - rewrite skipn_firstn_comm.
    by replace (Z.to_nat (i - window)) with (Z.to_nat start) by lia.
  - f_equal. rewrite <- (take_min_length _ (Z.to_nat window)). f_equal.
    rewrite length_drop. lia.
Qed.

Lemma get_context_shows_the_window_witness :
  get_context notes (Some 2%Z) 1 =
    inr (lit "Hiring paused. **Launch in May.** Thanks.").
Proof.
  apply (get_context_shows_the_window notes 2 1 (lit "Launch in May.")).
  - lia.
  - lia.
  - reflexivity.
Defined.

(** ** What a run of the executor leaves alone *)

Lemma apply_event_meeting_search w ev :
  meeting_search (apply_event w ev) = meeting_search w.
Proof.
  destruct ev as [dt| |id']; [done | | done].
  unfold apply_event, cleanup_tick. by destruct (sweep (clock w) (job_status w)).
Qed.

Lemma events_meeting_search w events :
  meeting_search (foldl apply_event w events) = meeting_search w.
Proof.
  revert w. induction events as [|ev events IH]; intros w; simpl; [done|].
  by rewrite IH, apply_event_meeting_search.
Qed.

(** X10.  No run of the executor changes the search index: the call of
    [index_transcript] at line 132 is never reached, so that a server whose
    index is empty keeps answering every search with the sentinel of an
    empty index. *)
Theorem the_executor_never_indexes_a_transcript
    (env : Environment) (path id : string) (options : SummaryOptions) (w : world) :
  meeting_search (process_audio_task env path id options w).1 = meeting_search w.
Proof.
  pose proof (process_audio_task_reaches_its_handler env id
                (λ w', meeting_search w' = meeting_search w)) as Hrun.
  specialize (Hrun ltac:(intros p m w' Hw'; unfold update_status;
                         by destruct (job_status w' !! id))).
  specialize (Hrun ltac:(apply await_keeps;
                         [done | intros w' events Hw'; by rewrite events_meeting_search])).
  specialize (Hrun path options (λ _ w', meeting_search w' = meeting_search w)
                (λ _ w', meeting_search w' = meeting_search w)).
  assert (∀ e, triple (λ w', meeting_search w' = meeting_search w ∧ str_exn e ≠ "")
                 (modify (print (JobErrorLine id (str_exn e)));;
                  update_status id 0%Z ("Error: " ++ str_exn e);;
                  setitem id (set_error (str_exn e)))
                 (λ _ w', meeting_search w' = meeting_search w)
                 (λ _ w', meeting_search w' = meeting_search w)) as Hhandler.
  { intros e w' [Hw' _]. unfold mbind, M_bind, modify, update_status, setitem. simpl.
    destruct (job_status w' !! id) as [j|] eqn:Hj; simpl.
    - by rewrite lookup_insert_eq.
    - by rewrite Hj. }
  specialize (Hrun Hhandler w eq_refl).
  by destruct (process_audio_task env path id options w) as [w' [e|[]]].
Qed.

Lemma comes_from_insert id w w' (f : job → job) j0 :
  (∀ j, created_at (f j) = created_at j) →
  comes_from id w w' → job_status w' !! id = Some j0 →
  comes_from id w (with_job_status (<[id := f j0]> (job_status w')) w').
Proof.
  intros Hf Hw' Hj0 id' j'. simpl. destruct (decide (id' = id)) as [->|Hne].
  - rewrite lookup_insert_eq. intros [= <-].
    destruct (Hw' id j0 Hj0) as (j & Hj & Hc & _). exists j. by rewrite Hf.
  - rewrite lookup_insert_ne by done. apply Hw'.
Qed.

(** X11.  A run of the executor for [id], whatever happens around it,
    creates no record, never changes the time of creation of a record (the
    time the reaper goes by), and leaves the record of every other job as
    it was, if the reaper has not removed it. *)
Theorem a_run_touches_only_its_own_record
    (env : Environment) (path id : string) (options : SummaryOptions) (w : world)
    (id' : string) (j' : job) :
  job_status (process_audio_task env path id options w).1 !! id' = Some j' →
  ∃ j, job_status w !! id' = Some j ∧ created_at j' = created_at j ∧ (id' ≠ id → j' = j).
Proof.
  pose proof (process_audio_task_reaches_its_handler env id (comes_from id w)) as Hrun.
  assert (∀ p m, triple (comes_from id w) (update_status id p m)
                   (λ _, comes_from id w) (λ _ _, False)) as Hupdate.
  { intros p m w' Hw'. unfold update_status.
    destruct (job_status w' !! id) as [j0|] eqn:Hj0; [|done].
    intros id'' j''. cbn [print job_status].
    by apply (comes_from_insert id w w' (set_progress p m (clock w'))). }
  specialize (Hrun Hupdate).
  specialize (Hrun ltac:(apply await_keeps;
                         [done | intros w' events Hw' id'' j'' Hj''%events_lookup;
                                 by apply Hw'])).
  specialize (Hrun path options (λ _, comes_from id w) (λ _, comes_from id w)).
  assert (∀ e, triple (λ w', comes_from id w w' ∧ str_exn e ≠ "")
                 (modify (print (JobErrorLine id (str_exn e)));;
                  update_status id 0%Z ("Error: " ++ str_exn e);;
                  setitem id (set_error (str_exn e)))
                 (λ _, comes_from id w) (λ _, comes_from id w)) as Hhandler.
  { intros e w' [Hw' _]. unfold mbind, M_bind, modify.
    pose proof (Hupdate 0%Z ("Error: " ++ str_exn e)
                  (print (JobErrorLine id (str_exn e)) w') Hw') as Hup.
    destruct (update_status id 0 ("Error: " ++ str_exn e)
                (print (JobErrorLine id (str_exn e)) w')) as [w1 [e1|[]]]; [done|].
    unfold setitem. destruct (job_status w1 !! id) as [j1|] eqn:Hj1; [|done].
    by apply (comes_from_insert id w w1 (set_error (str_exn e))). }
  specialize (Hrun Hhandler w ltac:(intros i j Hj; by exists j)).
  intros Hj'.
  destruct (process_audio_task env path id options w) as [w' [e|[]]];
    by apply Hrun.
Qed.

Lemma a_run_touches_only_its_own_record_witness :
  ∃ j, job_status (submitted_world [[]; []; []; [Elapse 60]]) !! "6f1c" = Some j ∧
       created_at (set_error "'error'" (set_progress 0 "Error: 'error'" 60 (new_job 0)))
       = created_at j ∧
       ("6f1c" ≠ "6f1c" →
        set_error "'error'" (set_progress 0 "Error: 'error'" 60 (new_job 0)) = j).
Proof.
  apply (a_run_touches_only_its_own_record env_at_hand "/tmp/tmpk2v7.mp3" "6f1c"
           default_options (submitted_world [[]; []; []; [Elapse 60]]) "6f1c").
  vm_compute. reflexivity.
Defined.

(** ** The transcription stage *)

(** X13.  With a callback that does not raise (or none), [transcribe_audio]
    never returns a transcript.  It raises [FileNotFoundError] for a
    missing file, [ValueError] for an empty one, and for every other file
    the [KeyError] of line 188, which reads the key "error" of a report
    that has none. *)
Theorem transcribe_audio_raises_by_the_state_of_the_file
    (env : Environment) (audio_path : string)
    (status_callback : option (Z → string → M unit)) (w : world) :
  (∀ callback p m w', status_callback = Some callback → (callback p m w').2 = inr ()) →
  (transcribe_audio env audio_path status_callback w).2 =
    inl (if negb (probe_exists (probe env audio_path))
         then FileNotFoundError ("Audio file not found: " ++ audio_path)
         else if (probe_size (probe env audio_path) =? 0)%Z
              then ValueError "Audio file is empty (0 bytes)"
              else KeyError "error").
Proof.
  intros Hcb.
  set (expected := if negb (probe_exists (probe env audio_path)) then _ else _).
  set (report := λ (p : Z) (m : string),
         match status_callback with
         | Some callback => callback p m
         | None => mret ()
         end : M unit).
  assert (∀ p m, triple (λ _, True) (report p m) (λ _ _, True) (λ _ _, False)) as Hreport.
  { intros p m w' _. unfold report. destruct status_callback as [callback|]; [|done].
    pose proof (Hcb callback p m w' eq_refl) as Hok.
    by destruct (callback p m w') as [w'' [e|[]]]. }
  assert (triple (λ _, True) (transcribe_audio env audio_path status_callback)
            (λ _ _, False) (λ e _, e = expected)) as Hrun.
  { unfold transcribe_audio. fold report. unfold expected.
    eapply triple_bind; [apply no_raise, Hreport|]. intros [].
    destruct (negb (probe_exists (probe env audio_path))).
    { eapply triple_bind; [apply no_raise, Hreport|]. intros []. by apply triple_raise. }
    destruct (probe_size (probe env audio_path) =? 0)%Z.
    { eapply triple_bind; [apply no_raise, Hreport|]. intros []. by apply triple_raise. }
    eapply triple_bind; [apply no_raise, Hreport|]. intros [].
    eapply (triple_bind _ _ _ (λ _ _, True)); [by intros w' _; unfold await; destruct (pending w')|].
    intros []. unfold getitem.
    rewrite (check_audio_file_keys env audio_path "error") by set_solver.
    eapply triple_bind; [|intros a; apply triple_false].
    by apply triple_lift. }
  specialize (Hrun w I).
  by destruct (transcribe_audio env audio_path status_callback w) as [w' [e|a]]; [subst|].
Qed.

Lemma transcribe_audio_raises_by_the_state_of_the_file_witness :
  (transcribe_audio env_at_hand "/tmp/tmpq3x9.wav" (Some (update_status "6f1c"))
     (submitted_world [])).2 = inl (KeyError "error").
Proof.
  apply (transcribe_audio_raises_by_the_state_of_the_file env_at_hand "/tmp/tmpq3x9.wav"
           (Some (update_status "6f1c")) (submitted_world [])).
  intros callback p m w' Hc. injection Hc as <-.
  unfold update_status. by destruct (job_status w' !! "6f1c").
Defined.

(** ** Every run of the executor *)

Lemma executor_never_completes_a_job_witness :
  complete (set_error "'error'" (set_progress 0 "Error: 'error'" 0 (new_job 0))) = false ∧
  results (set_error "'error'" (set_progress 0 "Error: 'error'" 0 (new_job 0))) = None.
Proof.
  apply (executor_never_completes_a_job env_at_hand "/tmp/tmpk2v7.mp3" "6f1c"
           default_options (submitted_world [])).
  - intros j Hj. vm_compute in Hj. by injection Hj as <-.
  - vm_compute. reflexivity.
Defined.

Lemma progress_goes_back_for_every_converted_job_witness :
  ∃ rest, progress_written "6f1c" (run_job []).1
          = (progress_written "6f1c" (submitted_world [])
             ++ [5; 10; 15; 20; 25; 5]%Z ++ rest)%list.
Proof.
  apply (progress_goes_back_for_every_converted_job env_at_hand "/tmp/tmpk2v7.mp3" "6f1c"
           default_options (submitted_world []) "/tmp/tmpq3x9.wav").
  - reflexivity.
  - vm_compute. eauto.
  - reflexivity.
Defined.

Lemma executor_raises_for_every_absent_job_witness :
  (process_audio_task env_at_hand "/tmp/tmpk2v7.mp3" "0b7e" default_options
     (submitted_world [])).2 = inl (KeyError "0b7e") ∧
  job_status (process_audio_task env_at_hand "/tmp/tmpk2v7.mp3" "0b7e" default_options
                (submitted_world [])).1 !! "0b7e" = None.
Proof.
  apply (executor_raises_for_every_absent_job env_at_hand "/tmp/tmpk2v7.mp3" "0b7e"
           default_options (submitted_world [])).
  vm_compute. reflexivity.
Defined.

(** ** The count of the reaper *)

Lemma keys_to_remove_NoDup now (reg : registry) : NoDup (keys_to_remove now reg).
Proof.
  unfold keys_to_remove. eapply sublist_NoDup; [apply (NoDup_fst_map_to_list reg)|].
  apply fmap_sublist, sublist_filter.
Qed.

Lemma size_delete_all keys (reg : registry) :
  NoDup keys → (∀ k, k ∈ keys → is_Some (reg !! k)) →
  size (delete_all keys reg) + length keys = size reg.
Proof.
  unfold delete_all. revert reg. induction keys as [|k keys IH]; intros reg Hnd Hin;
    cbn [foldl length]; [lia|].
  apply NoDup_cons in Hnd as [Hk Hnd].
  rewrite Nat.add_succ_r, IH; [|done|].
  - rewrite map_size_delete_Some by (apply Hin; left).
    assert (size reg ≠ 0); [|lia].
    eapply map_size_ne_0_lookup_2, Hin. left.
  - intros k' Hk'. rewrite lookup_delete_ne by (intros ->; done).
    apply Hin. by right.
Qed.

Lemma keys_to_remove_swept now (reg : registry) :
  keys_to_remove now (sweep now reg).1 = [].
Proof.
  unfold keys_to_remove.
  destruct (filter _ (map_to_list (sweep now reg).1)) as [|[k j] l] eqn:Hf; [done|].
  assert ((k, j) ∈ filter (λ kv : string * job, expired now kv.2 = true)
                     (map_to_list (sweep now reg).1)) as Hin by (rewrite Hf; left).
  apply list_elem_of_filter in Hin as [Hexp Hin%elem_of_map_to_list].
  rewrite sweep_lookup in Hin. destruct (reg !! k) as [j'|]; [|done].
  destruct (expired now j') eqn:He; [done|]. simplify_eq/=. congruence.
Qed.

(** X17.  A tick of the reaper prints the number of records it removed:
    the size of the registry before the tick minus its size after it.  It
    only removes records, and a second tick at the same time removes
    nothing more. *)
Theorem reaper_prints_the_number_it_removed (w : world) :
  let w' := cleanup_tick w in
  (stdout w' = stdout w ++ [CleanedLine (size (job_status w) - size (job_status w'))])%list ∧
  job_status w' ⊆ job_status w ∧
  job_status (cleanup_tick w') = job_status w'.
Proof.
  assert (∀ v, job_status (cleanup_tick v) = (sweep (clock v) (job_status v)).1 ∧
               clock (cleanup_tick v) = clock v ∧
               stdout (cleanup_tick v)
               = (stdout v ++ [CleanedLine (sweep (clock v) (job_status v)).2])%list)
    as Htick.
  { intros v. unfold cleanup_tick. by destruct (sweep (clock v) (job_status v)). }
  intros w'. unfold w'.
  destruct (Htick w) as (Hreg & Hclock & Hout).
  destruct (Htick (cleanup_tick w)) as (Hreg' & _ & _).
  split; [|split].
  - rewrite Hout, Hreg. do 3 f_equal. unfold sweep. cbn [fst snd].
    pose proof (size_delete_all (keys_to_remove (clock w) (job_status w)) (job_status w)
                  (keys_to_remove_NoDup _ _)) as Hsize.
    rewrite <- Hsize; [lia|].
    intros k (j & Hj & _)%elem_of_keys_to_remove. eauto.
  - rewrite Hreg. apply map_subseteq_spec. intros id j. rewrite sweep_lookup.
    destruct (job_status w !! id) as [j'|]; [|done]. by destruct (expired _ _).
  - rewrite Hreg', Hclock, Hreg. unfold sweep at 1. cbn [fst].
    by rewrite keys_to_remove_swept.
Qed.

(** ** The order of the points of a summary *)

Local Close Scope string_scope.

Section Order.
Implicit Types (t s : pystr) (l sentences : list pystr) (n : Z).

Lemma seq_sorted a k : StronglySorted lt (seq a k).
Proof.
  revert a. induction k as [|k IH]; intros a; simpl; constructor; [apply IH|].
  apply Forall_forall. intros i Hi%elem_of_seq. lia.
Qed.

Lemma range_sorted start stop step :
  (1 <= step)%Z → StronglySorted Z.lt (range start stop step).
Proof.
  intros Hstep. unfold range.
  eapply StronglySorted_fmap; [|apply seq_sorted]. intros i j Hij. simpl. nia.
Qed.

Lemma elem_of_range start stop step z :
  (1 <= step)%Z → z ∈ range start stop step → (start <= z < stop)%Z.
Proof.
  intros Hstep. unfold range. intros (i & -> & Hi%elem_of_seq)%list_elem_of_fmap.
  pose proof (Z.mul_div_le (stop - start + step - 1) step ltac:(lia)) as Hdiv.
  destruct (decide (0 <= (stop - start + step - 1) / step)%Z); [nia | lia].
Qed.

Lemma slice_to_sublist {A} n (xs : list A) : slice_to n xs `sublist_of` xs.
Proof. unfold slice_to. destruct (n <? 0)%Z; apply sublist_take. Qed.

(** The items at rising positions are a selection of the list, in its
    order. *)
Lemma items_sublist {A} (xs : list A) (idx : list Z) (k : Z) :
  (0 <= k)%Z →
  StronglySorted Z.lt idx →
  Forall (λ z, (k <= z < Z.of_nat (length xs))%Z) idx →
  ∃ ys, for_each (item xs) idx = inr ys ∧ ys `sublist_of` drop (Z.to_nat k) xs ∧
       length ys = length idx.
Proof.
  intros Hk Hsorted. revert k Hk.
  induction Hsorted as [|z idx Hsorted IH Hall]; intros k Hk Hbound.
  { exists []. split; [done|]. split; [apply sublist_nil_l | done]. }
  apply Forall_cons in Hbound as [Hz Hbound].
  destruct (IH (z + 1)%Z ltac:(lia)) as (ys & Hl & Hsub & Hlen).
  { rewrite Forall_forall in *. intros z' Hz'.
    specialize (Hall z' Hz'). specialize (Hbound z' Hz'). lia. }
  destruct (lookup_lt_is_Some_2 xs (Z.to_nat z)) as [x Hx]; [lia|].
  exists (x :: ys). cbn [for_each]. unfold item at 1.
  rewrite (proj2 (Z.ltb_ge _ _)), Hx by lia. unfold and_then, ok. rewrite Hl.
  split; [done|]. split; [|by cbn [length]; rewrite Hlen].
  replace (Z.to_nat (z + 1)) with (S (Z.to_nat z)) in Hsub by lia.
  rewrite <- (take_drop (Z.to_nat z - Z.to_nat k) (drop (Z.to_nat k) xs)).
  apply sublist_inserts_l. rewrite drop_drop.
  replace (Z.to_nat k + (Z.to_nat z - Z.to_nat k))%nat with (Z.to_nat z) by lia.
  rewrite (drop_S _ _ _ Hx). by apply sublist_skip.
Qed.

Lemma for_each_fmap {A B C} (f : B → R C) (g : A → B) (xs : list A) :
  for_each f (g <$> xs) = for_each (λ x, f (g x)) xs.
Proof.
  induction xs as [|x xs IH]; [done|]. rewrite fmap_cons. cbn [for_each]. by rewrite IH.
Qed.

Lemma keep_if_total {A} (f : A → R bool) (xs : list A) :
  (∀ x, x ∈ xs → ∃ b, f x = inr b) → ∃ ys, keep_if f xs = inr ys.
Proof.
  induction xs as [|x xs IH]; intros Hf; simpl; [by eexists|].
  destruct (Hf x) as [b ->]; [left|]. destruct IH as [ys ->].
  { intros y Hy. apply Hf. by right. }
  simpl. by eexists.
Qed.

Lemma insert_desc_perm x scores : insert_desc x scores ≡ₚ x :: scores.
Proof.
  induction scores as [|y scores IH]; simpl; [done|].
  destruct (Qle_bool y.2 x.2); [done|]. rewrite IH. apply Permutation_swap.
Qed.

Lemma sort_desc_perm scores : foldr insert_desc [] scores ≡ₚ scores.
Proof.
  induction scores as [|x scores IH]; simpl; [done|]. by rewrite insert_desc_perm, IH.
Qed.

Lemma nlargest_sublist n scores :
  ∃ sorted, sorted ≡ₚ scores.*1 ∧ nlargest n scores `sublist_of` sorted.
Proof.
  exists (foldr insert_desc [] scores).*1. split; [by rewrite sort_desc_perm|].
  unfold nlargest. destruct (n <=? 0)%Z; [apply sublist_nil_l | apply sublist_take].
Qed.

Lemma omap_indexed_sublist {A B} (f : A → option B) (xs : list A) (a : nat) :
  (omap (λ '(i, x), (λ y, (i, y)) <$> f x) (zip (seq a (length xs)) xs)).*1
  `sublist_of` seq a (length xs).
Proof.
  revert a. induction xs as [|x xs IH]; intros a; simpl; [done|].
  destruct (f x); simpl; [apply sublist_skip | apply sublist_cons]; apply IH.
Qed.

Lemma imap_zip_seq {A} (xs : list A) :
  imap (λ i x, (i, x)) xs = zip (seq 0 (length xs)) xs.
Proof.
  assert (∀ a, imap (λ i x, (a + i, x)) xs = zip (seq a (length xs)) xs) as H;
    [|apply (H 0)].
  induction xs as [|x xs IH]; intros a; simpl; [done|].
  rewrite Nat.add_0_r. f_equal. rewrite <- IH. apply imap_ext. intros i y _. simpl.
  f_equal. lia.
Qed.

Lemma sorted_lt_of_le (idx : list nat) :
  StronglySorted Nat.le idx → NoDup idx → StronglySorted lt idx.
Proof.
  induction 1 as [|i idx Hs IH Hall]; intros Hnd; [constructor|].
  apply NoDup_cons in Hnd as [Hi Hnd]. constructor; [by apply IH|].
  rewrite Forall_forall in *. intros j Hj. specialize (Hall j Hj).
  assert (i ≠ j) by (intros ->; done). unfold Nat.le in Hall. lia.
Qed.


Context (nltk : Nltk).

(** From two points on, the [try] block raises nothing once NLTK has cut
    the transcript, and what it selects is a selection of the sentences
    in their order. *)
Lemma summarize_main_selects t n sentences :
  (2 <= n)%Z →
  sent_tokenize nltk t = inr sentences →
  ∃ l, summarize_main nltk t n = inr (render l) ∧ l `sublist_of` sentences ∧
       length l ≤ Z.to_nat n.
Proof.
  intros Hn Htok. unfold summarize_main, and_then, ok. rewrite Htok. cbv zeta.
  destruct (Z.of_nat (length sentences) <=? n)%Z eqn:Hshort.
  { exists sentences. apply Z.leb_le in Hshort. split; [done|]. split; [done | lia]. }
  apply Z.leb_gt in Hshort.
  generalize (foldl (count_words nltk (or_else (stopwords_words nltk) fallback_stop_words))
                    ∅ sentences).
  intros word_frequencies. case_bool_decide as Hwf.
  { unfold floordiv. rewrite (proj2 (Z.eqb_neq n 0)) by lia.
    destruct (items_sublist sentences
                (slice_to n (range 0 (Z.of_nat (length sentences))
                                   (Z.max 1 (Z.of_nat (length sentences) / n)))) 0)
      as (l & Hl & Hsub & Hlen); [lia | | |].
    - eapply sorted_sublist; [apply slice_to_sublist|]. apply range_sorted. lia.
    - apply Forall_forall. intros z Hz. eapply elem_of_sublist in Hz;
        [|apply slice_to_sublist]. apply elem_of_range in Hz; lia.
    - rewrite Hl. exists l. split; [done|]. split; [done|].
      rewrite Hlen. apply slice_to_length. lia. }
  set (scores := omap _ _). case_bool_decide as Hscores.
  { rewrite (proj2 (Z.ltb_lt 1 _)) by lia.
    match goal with
    | |- context [keep_if ?f ?xs] => destruct (keep_if_total f xs) as [kept Hkept]
    end.
    { intros i _. unfold floordiv, pymod, and_then.
      rewrite (proj2 (Z.eqb_neq (n - 1) 0)) by lia.
      pose proof (Z.div_pos (Z.of_nat (length sentences)) (n - 1) ltac:(lia) ltac:(lia)).
      rewrite (proj2 (Z.eqb_neq _ 0)) by lia. by eexists. }
    rewrite Hkept.
    assert (slice_to (n - 1) kept `sublist_of` range 1 (Z.of_nat (length sentences)) 1)
      as Hrest.
    { etrans; [apply slice_to_sublist|]. by eapply keep_if_sublist. }
    destruct (items_sublist sentences (0%Z :: slice_to (n - 1) kept) 0)
      as (l & Hl & Hsub & Hlen); [lia | | |].
    - constructor.
      + eapply sorted_sublist; [done|]. by apply range_sorted.
      + apply Forall_forall. intros z Hz. eapply elem_of_sublist in Hz; [|done].
        apply elem_of_range in Hz; lia.
    - constructor; [lia|]. apply Forall_forall. intros z Hz.
      eapply elem_of_sublist in Hz; [|done]. apply elem_of_range in Hz; lia.
    - rewrite Hl. exists l. split; [done|]. split; [done|].
      rewrite Hlen. cbn [length].
      pose proof (slice_to_length (n - 1) kept ltac:(lia)). lia. }
  set (top := merge_sort Nat.le (nlargest n scores)).
  destruct (nlargest_sublist n scores) as (sorted & Hperm & Hsub).
  assert (scores.*1 `sublist_of` seq 0 (length sentences)) as Hfirst.
  { unfold scores. rewrite imap_zip_seq. apply omap_indexed_sublist. }
  assert (NoDup top ∧ ∀ i, i ∈ top → i < length sentences) as [Hnd Hbound].
  { unfold top. split.
    - rewrite merge_sort_Permutation. eapply sublist_NoDup; [|done].
      rewrite Hperm. eapply sublist_NoDup; [apply NoDup_seq | done].
    - intros i. rewrite merge_sort_Permutation. intros Hi.
      eapply elem_of_sublist in Hi; [|done]. rewrite Hperm in Hi.
      eapply elem_of_sublist in Hi; [|done]. apply elem_of_seq in Hi. lia. }
  rewrite <- (for_each_fmap (item sentences) Z.of_nat).
  destruct (items_sublist sentences (Z.of_nat <$> top) 0)
    as (l & Hl & Hsub' & Hlen); [lia | | |].
  - eapply StronglySorted_fmap; [|apply sorted_lt_of_le; [|done]].
    + intros i j Hij. lia.
    + apply StronglySorted_merge_sort; apply _.
  - apply Forall_fmap, Forall_forall. intros i Hi%Hbound. simpl. lia.
  - rewrite Hl. exists l. split; [done|]. split; [done|].
    rewrite Hlen, length_fmap. unfold top. rewrite merge_sort_Permutation.
    apply nlargest_length.
Qed.

End Order.

(** X18.  Asked for two points or more on a transcript NLTK cuts into
    sentences, the summarizer raises nothing and falls back on nothing: the
    summary is the rendering of at most that many of these sentences, each
    taken once, in the order of the transcript. *)
Theorem summary_points_keep_the_order_of_the_transcript
    (nltk : Nltk) (t : pystr) (n : Z) (sentences : list pystr) :
  (2 <= n)%Z → strip t ≠ [] → sent_tokenize nltk (strip t) = inr sentences →
  ∃ l, summarize_text nltk (PyStr t) n = render l ∧ l `sublist_of` sentences ∧
       length l ≤ Z.to_nat n.
Proof.
  intros Hn Ht Htok. unfold summarize_text. rewrite bool_decide_eq_false_2 by done.
  destruct (summarize_main_selects nltk (strip t) n sentences Hn Htok)
    as (l & Hl & Hsub & Hlen).
  rewrite Hl. by exists l.
Qed.

Lemma summary_points_keep_the_order_of_the_transcript_witness :
  ∃ l, summarize_text nltk_at_hand
         (PyStr (lit "Budget approved. Hiring paused. Launch in May. Thanks. Bye")) 3
       = render l ∧
       l `sublist_of` split [full_stop; space]
                        (strip (lit "Budget approved. Hiring paused. Launch in May. Thanks. Bye")) ∧
       length l ≤ Z.to_nat 3.
Proof.
  apply (summary_points_keep_the_order_of_the_transcript nltk_at_hand).
  - lia.
  - intros H. vm_compute in H. inversion H.
  - reflexivity.
Defined.

(** ** The paragraph style *)

Section Paragraph.
Implicit Types (s x rest : pystr) (l : list pystr).

Lemma replace_newline_free x rest :
  newline ∉ x →
  replace_from [newline] [space] 0 (x ++ rest) = x ++ replace_from [newline] [space] 0 rest.
Proof.
  induction x as [|c x IH]; [done|]. intros [Hc Hx]%not_elem_of_cons.
  change ((c :: x) ++ rest) with (c :: (x ++ rest)). cbn [replace_from].
  unfold starts_with. rewrite bool_decide_eq_false_2.
  - cbn [app]. f_equal. by apply IH.
  - simpl. by intros [= ->].
Qed.

Lemma replace_newline_join l :
  Forall (λ p, newline ∉ p) l →
  replace [newline] [space] (join [newline] l) = join [space] l.
Proof.
  unfold replace. induction 1 as [|p l Hp Hl IH]; [done|].
  destruct l as [|q l].
  - simpl. rewrite <- (app_nil_r p) at 1. rewrite replace_newline_free by done.
    apply app_nil_r.
  - change (join [newline] (p :: q :: l)) with (p ++ newline :: join [newline] (q :: l)).
    change (join [space] (p :: q :: l)) with (p ++ space :: join [space] (q :: l)).
    rewrite replace_newline_free by done. f_equal.
    cbn [replace_from]. unfold starts_with. rewrite bool_decide_eq_true_2 by done.
    cbn [app length Nat.sub]. f_equal. apply IH.
Qed.

End Paragraph.

(** X19.  For points that hold neither a bullet nor a line break, the
    paragraph style of the executor turns the rendering of the points into
    the points themselves, separated by single blanks. *)
Theorem paragraph_joins_the_points_with_blanks (l : list pystr) :
  Forall (λ p, (bullet ∉ p) ∧ (newline ∉ p)) l →
  to_paragraph (render l) = join [space] l.
Proof.
  intros Hl. unfold to_paragraph.
  rewrite replace_marker_render, replace_newline_join; [done|..];
    (eapply Forall_impl; [done|]); by intros p [??].
Qed.

Lemma paragraph_joins_the_points_with_blanks_witness :
  to_paragraph (render [lit "Budget approved."; lit "Launch in May."])
  = lit "Budget approved. Launch in May.".
Proof.
  apply (paragraph_joins_the_points_with_blanks
           [lit "Budget approved."; lit "Launch in May."]).
  repeat (apply Forall_cons; split;
          [split; apply (bool_decide_unpack _); vm_compute; exact I|]).
  constructor.
Defined.

(** ** Every path of the summarizer *)

Section Shapes.
Context (nltk : Nltk).
Implicit Types (t s : pystr) (n : Z).

Lemma summarize_main_marked t n s :
  summarize_main nltk t n = inr s → ∃ l, s = render l.
Proof.
  unfold summarize_main, and_then, ok.
  destruct (sent_tokenize nltk t) as [e|sentences]; [done|]. cbv zeta.
  destruct (_ <=? n)%Z; [intros [= <-]; by eexists|].
  case_bool_decide.
  { destruct (floordiv _ _) as [e|q]; [done|].
    destruct (for_each _ _) as [e|l]; [done|]. intros [= <-]. by eexists. }
  case_bool_decide.
  { destruct (if (1 <? _)%Z then _ else _) as [e|rest]; [done|].
    destruct (for_each _ _) as [e|l]; [done|]. intros [= <-]. by eexists. }
  destruct (for_each _ _) as [e|l]; [done|]. intros [= <-]. by eexists.
Qed.

Lemma summarize_fallback_marked t n s :
  summarize_fallback t n = inr s → ∃ l, s = render l.
Proof.
  unfold summarize_fallback, and_then, ok. cbv zeta.
  destruct (_ <=? 3)%Z; [intros [= <-]; by eexists|].
  destruct (item _ 0) as [e|first]; [done|].
  destruct (floordiv _ _) as [e|q]; [done|]. intros [= <-]. by eexists.
Qed.

End Shapes.

(** X20.  Whatever the transcript (a missing one and a blank one
    included), the number of points asked for and the state of NLTK, on
    every path of the summarizer the text returned starts with a bullet
    and a blank. *)
Theorem every_summary_starts_with_a_bullet (nltk : Nltk) (transcript : pyobj) (n : Z) :
  ∃ rest, summarize_text nltk transcript n = marker ++ rest.
Proof.
  unfold summarize_text. destruct transcript as [|t]; [by eexists|].
  case_bool_decide; [by eexists|].
  destruct (summarize_main nltk (strip t) n) as [e|s] eqn:Hmain; simpl.
  - destruct (summarize_fallback (strip t) n) as [e'|s] eqn:Hfall; simpl.
    + unfold summarize_ultra. destruct (500 <? _); by eexists.
    + apply summarize_fallback_marked in Hfall as [l ->]. by eexists.
  - apply summarize_main_marked in Hmain as [l ->]. by eexists.
Qed.

Section Fallback.
Implicit Types (t s : pystr) (n : Z).

Lemma omap_step {A B} (f : A → option B) (x : A) (xs : list A) :
  omap f (x :: xs) = match f x with Some y => y :: omap f xs | None => omap f xs end.
Proof. done. Qed.

Lemma omap_in_range {A} (xs : list A) (a m : nat) :
  length xs ≤ a + m →
  omap (λ i : Z, if (i * 1 <? Z.of_nat (length xs))%Z then xs !! Z.to_nat (i * 1)
                 else None)
       (Z.of_nat <$> seq a m) = drop a xs.
Proof.
  revert a. induction m as [|m IH]; intros a Hlen.
  { simpl. by rewrite drop_ge by lia. }
  cbn [seq]. rewrite fmap_cons, omap_step, IH by lia.
  rewrite Z.mul_1_r, Nat2Z.id.
  destruct (decide (a < length xs)) as [Hlt|Hge].
  - rewrite (proj2 (Z.ltb_lt _ _)) by lia.
    destruct (lookup_lt_is_Some_2 xs a Hlt) as [x Hx]. rewrite Hx.
    by rewrite (drop_S _ _ _ Hx).
  - rewrite (proj2 (Z.ltb_ge _ _)) by lia. by rewrite !drop_ge by lia.
Qed.

End Fallback.

(** X21.  When NLTK cannot cut the transcript and the transcript has more
    than three pieces between full stops but fewer than the points asked
    for, the first handler returns every piece and then the last piece a
    second time. *)
Theorem fallback_repeats_the_last_piece
    (nltk : Nltk) (t : pystr) (n : Z) (e : pyexn) (final : pystr) :
  sent_tokenize nltk (strip t) = inl e →
  (3 < Z.of_nat (length (split [full_stop; space] (strip t))) < n)%Z →
  last (split [full_stop; space] (strip t)) = Some final →
  summarize_text nltk (PyStr t) n = render (split [full_stop; space] (strip t) ++ [final]).
Proof.
  intros Htok Hlen Hlast. unfold summarize_text.
  assert (strip t ≠ []) as Ht.
  { intros Hnil. rewrite Hnil in Hlen. simpl in Hlen. lia. }
  rewrite bool_decide_eq_false_2 by done.
  unfold summarize_main at 1. rewrite Htok. cbn [and_then or_else].
  unfold summarize_fallback, and_then, ok. cbv zeta.
  set (pieces := split [full_stop; space] (strip t)) in *.
  rewrite (proj2 (Z.leb_gt _ _)) by lia.
  destruct pieces as [|first rest] eqn:Hpieces; [simpl in Hlen; lia|].
  unfold item. cbn [Z.ltb Z.compare Z.to_nat lookup list_lookup].
  unfold floordiv. rewrite (proj2 (Z.eqb_neq (n - 1) 0)) by lia.
  cbn [or_else]. rewrite (proj2 (Z.ltb_lt 1 _)) by lia. rewrite Hlast.
  assert (Z.of_nat (length (first :: rest)) / (n - 1) = 0 ∨
          Z.of_nat (length (first :: rest)) / (n - 1) = 1)%Z as Hq.
  { destruct (decide (Z.of_nat (length (first :: rest)) = n - 1)%Z) as [->|Hne].
    - right. apply Z.div_same. lia.
    - left. apply Z.div_small. lia. }
  assert (Z.max 1 (Z.of_nat (length (first :: rest)) / (n - 1)) = 1)%Z as -> by lia.
  rewrite range_seq by lia.
  change (Z.to_nat 1) with 1. change (Z.to_nat 0) with 0.
  rewrite (omap_in_range (first :: rest) 1 (Z.to_nat (n - 1 - 1))) by lia.
  done.
Qed.

Lemma fallback_repeats_the_last_piece_witness :
  summarize_text nltk_without_data
    (PyStr (lit "Budget approved. Hiring paused. Launch in May. Thanks")) 5
  = render [lit "Budget approved"; lit "Hiring paused"; lit "Launch in May"; lit "Thanks";
            lit "Thanks"].
Proof.
  apply (fallback_repeats_the_last_piece nltk_without_data
           (lit "Budget approved. Hiring paused. Launch in May. Thanks") 5
           (LookupError "Resource punkt not found") (lit "Thanks")).
  - reflexivity.
  - vm_compute. split; reflexivity.
  - vm_compute. reflexivity.
Defined.

Local Open Scope string_scope.

(** ** The context of a result, for any index *)

Lemma for_each_total {A B} (f : A → R B) (xs : list A) :
  (∀ x, x ∈ xs → ∃ y, f x = inr y) → ∃ ys, for_each f xs = inr ys.
Proof.
  induction xs as [|x xs IH]; intros Hf; simpl; [by eexists|].
  destruct (Hf x) as [y ->]; [left|]. destruct IH as [ys ->].
  { intros z Hz. apply Hf. by right. }
  simpl. by eexists.
Qed.

(** X22.  [get_context] never raises, whatever the index (an integer or
    not, in the transcript or outside) and whatever the window (negative
    ones included): no position it reads lies outside the list of
    sentences. *)
Theorem get_context_never_raises
    (self : MeetingSearch) (sentence_index : option Z) (window : Z) :
  ∃ context, get_context self sentence_index window = inr context.
Proof.
  unfold get_context. case_bool_decide; [by eauto|].
  destruct sentence_index as [i|]; [|by eauto].
  destruct (i <? 0)%Z eqn:Hneg; [by eauto|].
  destruct (Z.of_nat (length (sentences self)) <=? i)%Z eqn:Hlen; [by eauto|].
  apply Z.ltb_ge in Hneg. apply Z.leb_gt in Hlen. cbn [orb]. cbv zeta.
  match goal with
  | |- context [for_each ?f ?xs] => destruct (for_each_total f xs) as [context Hc]
  end.
  - intros k Hk%elem_of_range; [|lia].
    destruct (lookup_lt_is_Some_2 (sentences self) (Z.to_nat k)) as [s Hs]; [lia|].
    unfold item. rewrite (proj2 (Z.ltb_ge k 0)), Hs by lia.
    destruct (k =? i)%Z; by eexists.
  - rewrite Hc. by eexists.
Qed.

(** ** The header check of [check_audio_file] *)

Section HeaderFacts.

Lemma hex_of_byte_inj a b r r' : hex_of_byte a r = hex_of_byte b r' → a = b.
Proof.
  unfold hex_of_byte. intros [= Hh Hl _].
  set (nibble := λ c : ascii,
         N.of_nat (default 0 (String.index 0 (String c "") "0123456789abcdef"))).
  assert (∀ c : Byte.byte,
            Byte.of_N (16 * nibble (hex_digit (Byte.to_N c / 16))
                       + nibble (hex_digit (Byte.to_N c mod 16))) = Some c) as Hback.
  { intros c. destruct c; vm_compute; reflexivity. }
  pose proof (Hback a) as Ha. pose proof (Hback b) as Hb.
  rewrite Hh, Hl in Ha. congruence.
Qed.

Lemma high_digit_zero v : hex_digit (Byte.to_N v / 16) = "0"%char ↔ (Byte.to_N v < 16)%N.
Proof. destruct v; vm_compute; split; done. Qed.

Lemma prefix_hex_cons a s b bs :
  String.prefix (hex_of_byte a s) (hex (b :: bs)) = true ↔
  a = b ∧ String.prefix s (hex bs) = true.
Proof.
  cbn [hex foldr]. fold (hex bs). unfold hex_of_byte. cbn [String.prefix].
  split.
  - destruct (ascii_dec _ _) as [Hh|]; [|done]. destruct (ascii_dec _ _) as [Hl|]; [|done].
    intros Hs. split; [|done].
    apply (hex_of_byte_inj a b "" ""). unfold hex_of_byte. by rewrite Hh, Hl.
  - intros [-> Hs]. by repeat (destruct (ascii_dec _ _); [|done]).
Qed.

Lemma prefix_hex p bs : String.prefix (hex p) (hex bs) = true ↔ p `prefix_of` bs.
Proof.
  revert bs. induction p as [|a p IH]; intros bs.
  - split; [intros _; apply prefix_nil | by destruct (hex bs)].
  - destruct bs as [|b bs].
    + split; [done|]. intros [k Hk]. done.
    + change (hex (a :: p)) with (hex_of_byte a (hex p)).
      rewrite prefix_hex_cons, IH. split.
      * intros [-> Hp]. by apply prefix_cons.
      * intros [k Hk]. injection Hk as -> ->. split; [done|]. by eexists.
Qed.

Lemma prefix_hex_then_zero p bs :
  String.prefix (foldr hex_of_byte "0" p) (hex bs) = true ↔
  ∃ v rest, bs = (p ++ v :: rest)%list ∧ (Byte.to_N v < 16)%N.
Proof.
  revert bs. induction p as [|a p IH]; intros bs.
  - destruct bs as [|v rest]; cbn [foldr hex].
    + split; [done|]. by intros (v & rest & ? & _).
    + unfold hex_of_byte at 1. cbn [String.prefix].
      destruct (ascii_dec _ _) as [Hz|Hz].
      * split; [intros _|done]. exists v, rest. split; [done|]. by apply high_digit_zero.
      * split; [done|]. intros (v' & rest' & [= <- <-] & Hv).
        destruct Hz. symmetry. by apply high_digit_zero.
  - destruct bs as [|b bs].
    + split; [done|]. by intros (v & rest & ? & _).
    + change (foldr hex_of_byte "0" (a :: p))
        with (hex_of_byte a (foldr hex_of_byte "0" p)).
      rewrite prefix_hex_cons, IH.
      split.
      * intros [-> (v & rest & -> & Hv)]. by exists v, rest.
      * intros (v & rest & [= -> ->] & Hv). split; [done|]. by exists v, rest.
Qed.

Lemma prefix_of_take {A} (p l : list A) (n : nat) :
  (length p ≤ n)%nat → p `prefix_of` take n l ↔ p `prefix_of` l.
Proof.
  intros Hn. split.
  - intros Hp. etrans; [done|]. apply prefix_take.
  - intros [k ->]. rewrite take_app_ge by done. by apply prefix_app_r.
Qed.

End HeaderFacts.

Lemma first_match_is_Some header hs :
  is_Some (first_match header hs) ↔ ∃ h, h ∈ hs ∧ String.prefix h.1 header = true.
Proof.
  induction hs as [|[sig name] hs IH]; cbn [first_match].
  - split; [by intros [? ?] | by intros (h & ?%elem_of_nil & _)].
  - destruct (String.prefix sig header) eqn:Hsig.
    + split; [intros _ | by eauto]. exists (sig, name). split; [left | done].
    + rewrite IH. split.
      * intros (h & Hh & Hp). exists h. split; [by right | done].
      * intros (h & [->|Hh]%elem_of_cons & Hp); [simpl in Hp; congruence | by eauto].
Qed.

(** X23.  The header check of [check_audio_file] reads the first 16 bytes
    as hexadecimal text and compares it with nine signatures.  It finds a
    format, and adds no issue, exactly when the file starts with the bytes
    of "ID3" followed by a byte below 16 (the signature has seven digits),
    or with FF FB, FF F3, FF F2, FF FE, "RIFF", "OggS", "fLaC" or
    "ftypi". *)
Theorem header_is_known_by_its_first_bytes (content : list Byte.byte) :
  (is_Some (detected_format content) ↔ known_start content) ∧
  (header_issues content = [] ↔ known_start content).
Proof.
  assert (is_Some (detected_format content) ↔ known_start content) as Hdetect.
  { unfold detected_format, known_start. rewrite first_match_is_Some.
    assert (headers = (foldr hex_of_byte "0" [x49; x44; x33]%byte, "MP3 with ID3v2 tag")
                      :: zip (hex <$> byte_signatures) (tail headers.*2)) as Hh
      by (vm_compute; reflexivity).
    split.
    - intros (h & Hin & Hp). rewrite Hh in Hin.
      apply elem_of_cons in Hin as [->|Hin].
      + left. apply prefix_hex_then_zero in Hp as (v & rest & Hc & Hv).
        exists v, (rest ++ drop 16 content)%list. split; [|done].
        rewrite <- (take_drop 16 content) at 1. rewrite Hc. by rewrite <- !app_assoc.
      + right. apply list_elem_of_lookup in Hin as [i Hi].
        apply lookup_zip_with_Some in Hi as (sig & name & -> & Hsig & _).
        apply list_lookup_fmap_Some in Hsig as (p & -> & Hp').
        exists p. split; [by eapply list_elem_of_lookup_2|].
        apply prefix_hex in Hp. etrans; [done|]. apply prefix_take.
    - intros [(v & rest & -> & Hv)|(p & Hp & Hpre)].
      + exists (foldr hex_of_byte "0" [x49; x44; x33]%byte, "MP3 with ID3v2 tag").
        split; [left|]. apply prefix_hex_then_zero.
        exists v, (take 12 rest). split; [|done]. reflexivity.
      + apply list_elem_of_lookup in Hp as [i Hi].
        destruct (lookup_lt_is_Some_2 (zip (hex <$> byte_signatures) (tail headers.*2)) i)
          as [[sig name] Hsig].
        { apply lookup_lt_Some in Hi. revert Hi. vm_compute. lia. }
        exists (sig, name). split.
        * rewrite Hh. right. by eapply list_elem_of_lookup_2.
        * apply lookup_zip_with_Some in Hsig as (sig' & name' & [= <- <-] & Hsig & _).
          rewrite list_lookup_fmap, Hi in Hsig. injection Hsig as <-.
          apply prefix_hex, prefix_of_take; [|done].
          apply list_elem_of_lookup_2 in Hi. revert Hi. unfold byte_signatures.
          rewrite !elem_of_cons, elem_of_nil. intros Hp.
          repeat (destruct Hp as [->|Hp]; [simpl; lia|]). done. }
  split; [done|]. rewrite <- Hdetect. unfold header_issues.
  destruct (detected_format content); split; (done || by intros [? ?] || eauto).
Qed.

(** ** The sentiment report *)

Section Counts.

Lemma count_all (sentiments : list label) :
  (count POSITIVE sentiments + count NEGATIVE sentiments + count NEUTRAL sentiments
   = length sentiments)%nat.
Proof.
  unfold count. induction sentiments as [|l sentiments IH]; [done|].
  rewrite !filter_cons. destruct l; repeat case_decide; try done; simpl; lia.
Qed.

Lemma score_all_lengths v sentences :
  length (score_all v sentences).1 = length (score_all v sentences).2 ∧
  (length (score_all v sentences).1 ≤ length sentences)%nat.
Proof.
  unfold score_all.
  assert (∀ lists : list polarity * list label,
            let out := foldl (λ (lists : list polarity * list label) sentence,
                                match polarity_scores v sentence with
                                | inr sentiment_score =>
                                    (lists.1 ++ [sentiment_score],
                                     lists.2 ++ [label_of (compound sentiment_score)])%list
                                | inl _ => lists
                                end) lists sentences in
            length lists.1 = length lists.2 →
            length out.1 = length out.2 ∧
            (length out.1 ≤ length lists.1 + length sentences)%nat) as Hgen.
  { induction sentences as [|s sentences IH]; intros lists; cbn [foldl length].
    - intros Hl. split; [done | lia].
    - intros Hl. destruct (polarity_scores v s) as [e|p].
      + destruct (IH lists Hl). split; [done | lia].
      + destruct (IH (lists.1 ++ [p], lists.2 ++ [label_of (compound p)])%list) as [H1 H2].
        { cbn [fst snd]. rewrite !length_app. simpl. lia. }
        split; [done|]. cbn [fst] in H2. rewrite length_app in H2. simpl in H2. lia. }
  apply (Hgen ([], [])). done.
Qed.

End Counts.

(** X24.  When [analyze_sentiment] returns a full report, the numbers of
    positive, negative and neutral sentences add up to the total, the total
    is at least 1 (a sentence VADER raises on is counted nowhere), and the
    overall label is "Positive", "Negative" or "Neutral". *)
Theorem sentiment_counts_add_up
    (v : Vader) (transcript : pyobj) (overall positive negative neutral : string)
    (compound_score : Q) (s : stats) :
  analyze_sentiment v transcript
  = Analysed overall positive negative neutral compound_score s →
  (total_sentences s
   = positive_sentences s + negative_sentences s + neutral_sentences s)%nat ∧
  (1 ≤ total_sentences s)%nat ∧
  overall ∈ ["Positive"; "Negative"; "Neutral"].
Proof.
  unfold analyze_sentiment. destruct transcript as [|t]; [done|]. cbv zeta.
  case_bool_decide; [done|]. destruct (analyzer v) as [e|[]]; [done|].
  case_bool_decide; [done|].
  match goal with |- context [score_all v ?l] =>
    pose proof (score_all_lengths v l) as [Hlen _];
    destruct (score_all v l) as [scores sentiments]
  end.
  cbn [fst snd] in Hlen. case_bool_decide as Hscores; [done|].
  intros [= <- _ _ _ _ <-]. cbn [total_sentences positive_sentences negative_sentences
                                neutral_sentences].
  split; [by rewrite count_all|]. split.
  - rewrite <- Hlen. destruct scores; [done | simpl; lia].
  - repeat case_match; set_solver.
Qed.

Lemma sentiment_counts_add_up_witness :
  (3 = 1 + 1 + 1)%nat ∧ (1 ≤ 3)%nat ∧ "Positive" ∈ ["Positive"; "Negative"; "Neutral"].
Proof.
  apply (sentiment_counts_add_up vader_at_hand
           (PyStr (lit "A great plan. We are late. Thanks"))
           "Positive" "" "" "" (30 # 300)
           {| total_sentences := 3; positive_sentences := 1; negative_sentences := 1;
              neutral_sentences := 1; average_positive := 1 # 6;
              average_negative := 1 # 6; average_neutral := 8 # 12 |}).
  vm_compute.
  reflexivity.
Defined.

(** ** The error a job ends with *)

Section Verdicts.
Context (env : Environment) (id : string).

Lemma transcribe_audio_raises_exactly path :
  triple (unfinished id) (transcribe_audio env path (Some (update_status id)))
         (λ _ _, False)
         (λ e w, unfinished id w ∧ e = transcription_exception env path).
Proof.
  unfold transcribe_audio, transcription_exception.
  eapply triple_bind; [apply no_raise, update_status_unfinished|]. intros [].
  destruct (negb (probe_exists (probe env path))).
  { eapply triple_bind; [apply no_raise, update_status_unfinished|]. intros [].
    apply triple_raise. by split. }
  destruct (probe_size (probe env path) =? 0)%Z.
  { eapply triple_bind; [apply no_raise, update_status_unfinished|]. intros [].
    apply triple_raise. by split. }
  eapply triple_bind; [apply no_raise, update_status_unfinished|]. intros [].
  eapply triple_bind; [apply no_raise, await_unfinished|]. intros [].
  unfold getitem. rewrite (check_audio_file_keys env path "error") by set_solver.
  eapply triple_bind; [|intros a; apply triple_false].
  apply triple_lift. intros w Hw. by split.
Qed.

Lemma failed_with_events msg w events :
  failed_with id msg w → failed_with id msg (foldl apply_event w events).
Proof. intros Hw j Hj%events_lookup. by apply Hw. Qed.

Lemma process_audio_task_ends_with path options :
  triple (unfinished id) (process_audio_task env path id options)
         (λ _, failed_with id (str_exn (stage_exception env path)))
         (λ _, failed_with id (str_exn (stage_exception env path))).
Proof.
  unfold process_audio_task.
  eapply (triple_try _ _ _ _ (λ e w, unfinished id w ∧ e = stage_exception env path)).
  - eapply triple_bind; [apply no_raise, update_status_unfinished|]. intros [].
    eapply triple_bind; [apply no_raise, await_unfinished|]. intros [].
    unfold dict_get, dict_get_default. rewrite !check_audio_file_keys by set_solver.
    cbn [default truthy format_2f].
    eapply triple_bind.
    { eapply (triple_bind _ _ _ (λ _, unfinished id)).
      - apply triple_lift. by intros w Hw.
      - intros duration. apply no_raise, update_status_unfinished. }
    intros [].
    eapply (triple_bind _ _ _
              (λ wav w, unfinished id w ∧ convert_audio_to_wav env path = inr wav)).
    { eapply (triple_try _ _ _ _
                (λ e w, unfinished id w ∧ convert_audio_to_wav env path = inl e)).
      - eapply triple_bind; [apply no_raise, update_status_unfinished|]. intros [].
        eapply triple_bind; [apply no_raise, await_unfinished|]. intros [].
        eapply (triple_bind _ _ _
                  (λ wav w, unfinished id w ∧ convert_audio_to_wav env path = inr wav)).
        { apply triple_lift. intros w Hw.
          by destruct (convert_audio_to_wav env path). }
        intros wav. eapply (triple_bind _ _ _ (λ _ w, unfinished id w ∧ _)).
        + intros w [Hw Hc]. pose proof (update_status_unfinished id id 20%Z
                                         "Audio converted successfully" w Hw) as Hup.
          destruct (update_status id 20 "Audio converted successfully" w)
            as [w' [e|[]]]; [done|]. split; [exact Hup | exact Hc].
        + intros []. by apply triple_ret.
      - intros e. eapply (triple_bind _ _ _ (λ _ w, unfinished id w ∧ _)).
        + intros w [Hw Hc].
          pose proof (update_status_unfinished id id 0%Z
                        ("Audio conversion failed: " ++ str_exn e) w Hw) as Hup.
          destruct (update_status id 0 ("Audio conversion failed: " ++ str_exn e) w)
            as [w' [e'|[]]]; [done|]. split; [exact Hup | exact Hc].
        + intros []. apply triple_raise. intros w [Hw Hc]. split; [done|].
          unfold stage_exception. by rewrite Hc. }
    intros wav.
    eapply (triple_bind _ _ _ (λ _ w, unfinished id w ∧ _)).
    { intros w [Hw Hc].
      pose proof (update_status_unfinished id id 25%Z "Starting transcription..." w Hw)
        as Hup.
      destruct (update_status id 25 "Starting transcription..." w) as [w' [e'|[]]];
        [done|]. split; [exact Hup | exact Hc]. }
    intros [].
    eapply (triple_bind _ _ _ (λ _ w, unfinished id w ∧ _)).
    { intros w [Hw Hc]. pose proof (await_unfinished id w Hw) as Haw.
      destruct (await w) as [w' [e'|[]]]; [done|]. split; [exact Haw | exact Hc]. }
    intros [].
    eapply triple_bind; [|intros a; apply triple_false].
    intros w [Hw Hc]. pose proof (transcribe_audio_raises_exactly wav w Hw) as Hrun.
    destruct (transcribe_audio env wav (Some (update_status id)) w) as [w' [e|a]];
      [|done].
    destruct Hrun as [Hw' ->]. split; [done|]. unfold stage_exception. by rewrite Hc.
  - intros e w [Hw ->]. unfold mbind, M_bind, modify, update_status, setitem. simpl.
    destruct (job_status w !! id) as [j0|] eqn:Hj0; simpl.
    + rewrite lookup_insert_eq. intros j. simpl. rewrite lookup_insert_eq.
      intros [= <-]. destruct (Hw j0 Hj0) as [Hres Hcomp]. simpl. done.
    + rewrite Hj0. intros j. simpl. by rewrite Hj0.
Qed.

End Verdicts.

(** X25.  Start the executor on a job that has no results yet, in any
    surroundings, and let anything happen afterwards.  As long as the
    record exists, the status endpoint answers with the error of the stage
    that stopped the run: "Audio conversion failed: " and the text of the
    exception of [convert_audio_to_wav] (which starts with the same words
    again when a decoder failed), or else the text of the exception of
    [transcribe_audio], which is the [KeyError] text ['error'] for every
    WAV file that exists and is not empty. *)
Theorem a_job_ends_with_the_error_of_its_stage
    (env : Environment) (path id : string) (options : SummaryOptions)
    (w : world) (later : list env_event) :
  unfinished id w →
  let w' := foldl apply_event (process_audio_task env path id options w).1 later in
  let msg := str_exn (stage_exception env path) in
  msg ≠ "" ∧
  get_job_status (job_status w') id =
    match job_status w' !! id with
    | Some _ => inr (ErrorSnapshot ("Error: " ++ msg) msg)
    | None => inl (HTTPException 404 "Job not found")
    end.
Proof.
  intros Hw w' msg.
  assert (msg ≠ "") as Hmsg.
  { unfold msg, stage_exception, transcription_exception.
    destruct (convert_audio_to_wav env path) as [e|wav]; [done|].
    destruct (negb _); [done|]. by destruct (_ =? _)%Z. }
  split; [done|].
  assert (failed_with id msg w') as Hfailed.
  { apply failed_with_events.
    pose proof (process_audio_task_ends_with env id path options w Hw) as Hrun.
    destruct (process_audio_task env path id options w) as [w1 [e|[]]]; exact Hrun. }
  unfold get_job_status. destruct (job_status w' !! id) as [j|] eqn:Hj; [|done].
  destruct (Hfailed j Hj) as (Herr & Hline & _).
  rewrite Herr. simpl. apply String.eqb_neq in Hmsg. by rewrite Hmsg, Hline.
Qed.

Lemma a_job_ends_with_the_error_of_its_stage_witness :
  get_job_status
    (job_status (process_audio_task env_without_audio "/tmp/tmpk2v7.mp3" "6f1c"
                   default_options (submitted_world [])).1) "6f1c"
  = inr (ErrorSnapshot
           "Error: Audio conversion failed: Audio conversion failed: No audio data found in file"
           "Audio conversion failed: Audio conversion failed: No audio data found in file").
Proof.
  assert (unfinished "6f1c" (submitted_world [])) as Hfresh
    by (intros j; vm_compute; intros [= <-]; done).
  pose proof (a_job_ends_with_the_error_of_its_stage env_without_audio "/tmp/tmpk2v7.mp3"
                "6f1c" default_options (submitted_world []) [] Hfresh) as [_ Hget].
  cbn [foldl] in Hget. rewrite Hget.
  assert (is_Some (job_status (process_audio_task env_without_audio "/tmp/tmpk2v7.mp3"
                                 "6f1c" default_options (submitted_world [])).1 !! "6f1c"))
    as [j Hj] by (vm_compute; eauto).
  rewrite Hj. reflexivity.
Defined.

(** ** Submission *)

(** X12.  A submission with a file that is not empty is stopped by one
    thing only: an exception of [magic] other than [ImportError], which
    leaves the handler before any job exists.  In every other case,
    whatever [validate_audio_file] says of the file, the job is created:
    the status endpoint answers for the new id with the progress 0 and the
    message "Job started", the other records are as before, and one task
    is queued for the executor with the options of the request. *)
Theorem only_a_failing_magic_stops_a_submission
    (env : Environment) (lower : string → string) (id : string) (file : UploadFile)
    (options : SummaryOptions) (p : validation_probe) (w : world) :
  file_content file ≠ [] →
  let run := process_audio env lower id file options p w in
  match v_magic p with
  | MagicRaises e => run = (w, inl e)
  | _ =>
      run.2 = inr {| job_id_of := id; status_field := "processing" |} ∧
      get_job_status (job_status run.1) id = inr (ProcessingSnapshot 0 "Job started") ∧
      (∀ id', id' ≠ id → job_status run.1 !! id' = job_status w !! id') ∧
      background_tasks run.1 =
        (background_tasks w
         ++ [{| task_audio_path := named_temporary_file env ("." ++ file_extension lower file);
                task_job_id := id; task_options := options |}])%list ∧
      stdout run.1 = stdout w ∧ meeting_search run.1 = meeting_search w
  end.
Proof.
  intros Hfile run.
  destruct (v_magic p) as [|e|mime] eqn:Hmagic;
    [|by apply process_audio_magic|];
    (unfold run; rewrite process_audio_accepts by (done || (intros e; congruence));
     cbn [fst snd add_task with_job_status job_status background_tasks stdout
          meeting_search];
     unfold get_job_status; rewrite lookup_insert_eq; repeat split; try done;
     intros id' Hne; by rewrite lookup_insert_ne).
Qed.

Lemma only_a_failing_magic_stops_a_submission_witness :
  validate_audio_file "/tmp/tmpk2v7.mp3" text_file
  = inr (false, "File does not appear to be audio. MIME type: text/plain") ∧
  get_job_status
    (job_status (process_audio env_at_hand (λ s, s) "6f1c" talk default_options
                   text_file (fresh_world 0 [])).1) "6f1c"
  = inr (ProcessingSnapshot 0 "Job started").
Proof.
  split; [reflexivity|].
  pose proof (only_a_failing_magic_stops_a_submission env_at_hand (λ s, s) "6f1c" talk
                default_options text_file (fresh_world 0 [])) as Hrun.
  cbv zeta in Hrun. cbn [v_magic text_file] in Hrun.
  apply Hrun. discriminate.
Defined.
